(** * LANShare: the Bluetooth scan coordinator and the WebDAV server lifecycle

    A shallow embedding of [model/bluetooth.go] and [model/webDav.go].

    Conventions of the embedding.
    - A Go [int] is a [Z]; where the code multiplies into a [time.Duration]
      (an int64) the wrap-around is written out.
    - A Go [error] is an [option GoError], [None] being [nil].
    - A Go [map[string]Device] is a [gmap string Device].
    - What the code asks of the outside world (the BLE stack, the operating
      system's network and file system calls, the HTTP server's shutdown) is
      an explicit argument of the function that asks for it: a record of the
      answers the world gives.  The functions are total and executable.
    - Every method of [WebDAVService] runs with [w.mu] held from its first
      statement to its return, so a method is one atomic transition on the
      service's fields; the background goroutine's locked section is a
      transition of its own.
    - [log.Printf] is kept as a list of structured log entries. *)

From Stdlib Require Import ZArith String List Lia DecimalString.
From Stdlib Require DecimalZ.
From Stdlib.Strings Require Import Byte.
From stdpp Require Import base decidable option list gmap strings fin_maps.

Local Open Scope Z_scope.

(** ** Go values shared by both services *)

(** The error values the code can tell apart.  [WrapError] is an error with
    an [Unwrap] method (what [fmt.Errorf] with [%w] or [errors.Wrap]
    builds); [errors.Is] walks that chain. *)
Inductive GoError : Type :=
  | DeadlineExceeded                       (* context.DeadlineExceeded *)
  | Canceled                               (* context.Canceled *)
  | ErrServerClosed                        (* http.ErrServerClosed *)
  | ErrorString (msg : string)             (* errors.New, fmt.Errorf *)
  | WrapError (msg : string) (cause : GoError).

#[global] Instance GoError_eq_dec : EqDecision GoError.
Proof. solve_decision. Defined.

(** [errors.Is(err, target)] for a non-nil [err]. *)
Fixpoint chain_Is (err target : GoError) : bool :=
  if decide (err = target) then true
  else match err with
       | WrapError _ cause => chain_Is cause target
       | _ => false
       end.

(** [errors.Is(err, target)]; a nil [err] matches no non-nil target. *)
Definition errors_Is (err : option GoError) (target : GoError) : bool :=
  match err with
  | None => false
  | Some e => chain_Is e target
  end.

(** [%d] of an [int]. *)
Definition itoa (n : Z) : string := NilEmpty.string_of_int (Z.to_int n).

(** The lines the code logs, one constructor per [log.Printf] call site. *)
Inductive LogEntry : Type :=
  | LogNonPositiveSeconds (seconds : Z)
  | LogCreatingDevice
  | LogCreateDeviceFailed (err : GoError)
  | LogStartingScan (seconds : Z)
  | LogAdvReceived (addr name : string) (rssi : Z) (svcCount : nat)
  | LogScanTimeoutCancel (err : GoError)
  | LogScanError (err : GoError)
  | LogCollecting
  | LogFoundDevices (n : nat)
  | LogCreateRootFailed (err : GoError)
  | LogServerError (err : GoError).

(** Wrap-around of a Go int64. *)
Definition int64_wrap (z : Z) : Z := (z + 2 ^ 63) mod 2 ^ 64 - 2 ^ 63.

(** ** model/bluetooth.go *)
Module Bluetooth.

(** [type Device struct] *)
Record Device : Type := mkDevice {
  Addr : string;
  Name : string;
  RSSI : Z
}.

#[global] Instance Device_eq_dec : EqDecision Device.
Proof. solve_decision. Defined.

(** What the handler reads of a [ble.Advertisement]:
    [a.Addr().String()], [a.LocalName()], [a.RSSI()], [len(a.Services())]. *)
Record Advertisement : Type := mkAdv {
  adv_Addr : string;
  adv_LocalName : string;
  adv_RSSI : Z;
  adv_Services : nat
}.

(** The BLE stack as [scanImpl] sees it.  [dev_NewDevice] is the error of
    [dev.NewDevice("default")].  [ble_Scan d] is one run of [ble.Scan] under
    a context whose timeout is [d] nanoseconds: the advertisements it hands
    to the handler, in the order the handler's critical sections run, and
    the error it returns at the end. *)
Record BleStack : Type := mkBle {
  dev_NewDevice : option GoError;
  ble_Scan : Z -> list Advertisement * option GoError
}.

(** [time.Duration(seconds) * time.Second], in nanoseconds. *)
Definition scan_timeout (seconds : Z) : Z := int64_wrap (seconds * 1000000000).

(** The Device line 55 builds from an advertisement. *)
Definition device_of (a : Advertisement) : Device :=
  mkDevice (adv_Addr a) (adv_LocalName a) (adv_RSSI a).

(** The closure [advHandler] (lines 45-57), on the map it captures and the
    log. *)
Definition advHandler (st : gmap string Device * list LogEntry)
    (a : Advertisement) : gmap string Device * list LogEntry :=
  let addr := adv_Addr a in
  let displayName := adv_LocalName a in
  if String.eqb displayName "" then st
  else
    let log := st.2 ++ [LogAdvReceived addr (adv_LocalName a) (adv_RSSI a)
                          (adv_Services a)] in
    let dvc := mkDevice addr displayName (adv_RSSI a) in
    (<[addr := dvc]> st.1, log).

(** Lines 79-82: the values of the map, ranged over into a slice.  Go leaves
    the order of a map range unspecified; the embedding takes the map's own
    enumeration, and the theorems speak of membership only. *)
Definition collect (devices : gmap string Device) : list Device :=
  (map_to_list devices).*2.

(** [scanImpl] returns a slice (nil is [None]) and an error (nil is [None]);
    the log is returned beside them. *)
Definition scanImpl (ble : BleStack) (seconds : Z)
    : (option (list Device) * option GoError) * list LogEntry :=
  let '(seconds, log) :=
    if seconds <=? 0 then (5, [LogNonPositiveSeconds seconds])
    else (seconds, []) in
  let log := log ++ [LogCreatingDevice] in
  match dev_NewDevice ble with
  | Some err => ((None, Some err), log ++ [LogCreateDeviceFailed err])
  | None =>
    let log := log ++ [LogStartingScan seconds] in
    let '(advs, err) := ble_Scan ble (scan_timeout seconds) in
    let '(devices, log) := foldl advHandler (∅, log) advs in
    let finish log :=
      let log := log ++ [LogCollecting] in
      let res := collect devices in
      ((Some res, None), log ++ [LogFoundDevices (length res)]) in
    match err with
    | None => finish log
    | Some e =>
      if errors_Is err DeadlineExceeded || errors_Is err Canceled
      then finish (log ++ [LogScanTimeoutCancel e])
      else ((None, Some e), log ++ [LogScanError e])
    end
  end.

(** [func (b *BluetoothService) Scan] *)
Definition Scan (ble : BleStack) (seconds : Z) := scanImpl ble seconds.

End Bluetooth.

(** ** model/webDav.go *)
Module WebDAV.

(** *** The address resolver, [localIPv4] *)

#[global] Instance byte_eq_dec : EqDecision Byte.byte := Byte.byte_eq_dec.

(** A [net.IP] is a byte slice; the nil slice is the empty list (the code
    tests [ip == nil] only where an empty slice would be skipped by the
    very next test as well). *)
Definition IP : Type := list Byte.byte.

(** The dynamic types an element of [iface.Addrs()] can have: the two the
    type switch of lines 151-156 names, and any other. *)
Inductive Addr : Type :=
  | IPNet (ip : IP) (mask : list Byte.byte)      (* *net.IPNet *)
  | IPAddr (ip : IP) (zone : string)             (* *net.IPAddr *)
  | OtherAddr (text : string).

(** [net.Interface]: its flag word and the answer of its [Addrs()]. *)
Record Interface : Type := mkInterface {
  Flags : Z;
  Addrs : list Addr * option GoError
}.

(** [net.FlagUp] and [net.FlagLoopback] ([1 << iota]: Up, Broadcast,
    Loopback, ...). *)
Definition FlagUp : Z := 1.
Definition FlagBroadcast : Z := 2.
Definition FlagLoopback : Z := 4.

Definition is_nil {A} (l : list A) : bool :=
  match l with [] => true | _ => false end.

Definition byte_is (b : Byte.byte) (n : N) : bool := N.eqb (Byte.to_N b) n.

(** [isZeros] *)
Definition isZeros (p : list Byte.byte) : bool := forallb (fun b => byte_is b 0) p.

(** [func (ip IP) To4() IP] *)
Definition To4 (ip : IP) : IP :=
  if Nat.eqb (length ip) 4 then ip
  else if Nat.eqb (length ip) 16 && isZeros (take 10 ip)
          && byte_is (nth 10 ip Byte.x00) 255 && byte_is (nth 11 ip Byte.x00) 255
       then take 4 (drop 12 ip)
       else [].

(** [net.IPv6loopback] *)
Definition IPv6loopback : IP := replicate 15 Byte.x00 ++ [Byte.x01].

(** [v4InV6Prefix] *)
Definition v4InV6Prefix : list Byte.byte := replicate 10 Byte.x00 ++ [Byte.xff; Byte.xff].

(** [func (ip IP) Equal(x IP) bool] *)
Definition IP_Equal (ip x : IP) : bool :=
  if Nat.eqb (length ip) (length x) then bool_decide (ip = x)
  else if Nat.eqb (length ip) 4 && Nat.eqb (length x) 16
       then bool_decide (take 12 x = v4InV6Prefix) && bool_decide (ip = drop 12 x)
  else if Nat.eqb (length ip) 16 && Nat.eqb (length x) 4
       then bool_decide (take 12 ip = v4InV6Prefix) && bool_decide (drop 12 ip = x)
  else false.

(** [func (ip IP) IsLoopback() bool] *)
Definition IsLoopback (ip : IP) : bool :=
  let ip4 := To4 ip in
  if negb (is_nil ip4) then byte_is (nth 0 ip4 Byte.x00) 127
  else IP_Equal ip IPv6loopback.

Definition byte_dec (b : Byte.byte) : string := itoa (Z.of_N (Byte.to_N b)).

(** [func (ip IP) String() string], for the lengths [localIPv4] can call it
    with: it is only applied to a non-nil result of [To4], four bytes, which
    print in dotted decimal.  A nil IP prints as "<nil>"; the textual forms
    of other lengths are not modelled and stand as "?". *)
Definition IP_String (ip : IP) : string :=
  match ip with
  | [] => "<nil>"
  | [a; b; c; d] =>
      byte_dec a +:+ "." +:+ byte_dec b +:+ "." +:+ byte_dec c +:+ "." +:+ byte_dec d
  | _ => "?"
  end.

(** The IP the type switch of lines 150-156 extracts. *)
Definition addr_ip (a : Addr) : IP :=
  match a with
  | IPNet ip _ => ip
  | IPAddr ip _ => ip
  | OtherAddr _ => []
  end.

(** The inner loop, lines 149-166: [Some s] is [return s], [None] is the
    loop running to its end. *)
Fixpoint firstIPv4 (addrs : list Addr) : option string :=
  match addrs with
  | [] => None
  | a :: addrs =>
      let ip := addr_ip a in
      if is_nil ip || IsLoopback ip then firstIPv4 addrs
      else
        let ip := To4 ip in
        if is_nil ip then firstIPv4 addrs
        else Some (IP_String ip)
  end.

(** The outer loop, lines 140-168. *)
Fixpoint scanInterfaces (ifaces : list Interface) : string :=
  match ifaces with
  | [] => ""
  | iface :: ifaces =>
      if negb (Z.land (Flags iface) (Z.lor FlagUp FlagLoopback) =? FlagUp)
      then scanInterfaces ifaces
      else
        let '(addrs, err) := Addrs iface in
        match err with
        | Some _ => scanInterfaces ifaces
        | None =>
            match firstIPv4 addrs with
            | Some s => s
            | None => scanInterfaces ifaces
            end
        end
  end.

(** The network as [Start] and [localIPv4] see it: the answer of
    [net.Listen(network, address)], the port of the bound listener's
    [Addr()] or an error, and the answer of [net.Interfaces()]. *)
Inductive ListenResult : Type :=
  | Listening (boundPort : Z)
  | ListenFailed (err : GoError).

Record Network : Type := mkNetwork {
  net_Listen : string -> string -> ListenResult;
  net_Interfaces : list Interface * option GoError
}.

(** [func localIPv4() string] *)
Definition localIPv4 (net : Network) : string :=
  let '(ifaces, err) := net_Interfaces net in
  match err with
  | Some _ => ""
  | None => scanInterfaces ifaces
  end.

(** *** The service *)

(** The [net.Listener] object the service holds: the port it is bound to
    and whether [Close] was called on it. *)
Record Listener : Type := mkListener {
  ln_Port : Z;
  ln_closed : bool
}.

(** The [http.Server] object the service holds: the directory its WebDAV
    handler serves, its three timeouts in nanoseconds, and whether
    [Shutdown] was called on it. *)
Record Server : Type := mkServer {
  srv_Dir : string;
  ReadTimeout : Z;
  WriteTimeout : Z;
  IdleTimeout : Z;
  srv_inShutdown : bool
}.

(** [type WebDAVService struct]; the two handles are nil-able, [mu] is the
    lock under which each transition below runs. *)
Record WebDAVService : Type := mkService {
  srv : option Server;
  listener : option Listener;
  root : string;
  running : bool
}.

#[global] Instance Listener_eq_dec : EqDecision Listener.
Proof. solve_decision. Defined.
#[global] Instance Server_eq_dec : EqDecision Server.
Proof. solve_decision. Defined.
#[global] Instance WebDAVService_eq_dec : EqDecision WebDAVService.
Proof. solve_decision. Defined.

Definition Second : Z := 1000000000.

(** The file system as [NewWebDAVService] sees it: the answers of
    [os.Getwd()] and [os.MkdirAll(path, 0755)], and the standard library's
    [filepath.Join], which is not code of this repository and is taken as
    given. *)
Record FileSystem : Type := mkFileSystem {
  os_Getwd : string * option GoError;
  os_MkdirAll : string -> option GoError;
  filepath_Join : string -> string -> string
}.

(** [func NewWebDAVService(root string) *WebDAVService] *)
Definition NewWebDAVService (fs : FileSystem) (root : string)
    : WebDAVService * list LogEntry :=
  let root :=
    if String.eqb root "" then
      let '(cwd, err) := os_Getwd fs in
      let cwd := match err with Some _ => "." | None => cwd end in
      filepath_Join fs cwd "shared"
    else root in
  let log :=
    match os_MkdirAll fs root with
    | Some err => [LogCreateRootFailed err]
    | None => []
    end in
  (mkService None None root false, log).

(** [func (w *WebDAVService) Start(ctx, port) (string, error)].  The
    goroutine of lines 81-89 is launched when the second component of the
    result has a nil error; its locked section is [serveReturned]. *)
Definition Start (w : WebDAVService) (net : Network) (port : Z)
    : WebDAVService * (string * option GoError) :=
  if running w then (w, ("", Some (ErrorString "webdav already running")))
  else
    let server := mkServer (root w) (5 * Second) (30 * Second) (60 * Second) false in
    let addr := "0.0.0.0:" +:+ itoa port in
    match net_Listen net "tcp" addr with
    | ListenFailed err => (w, ("", Some err))
    | Listening boundPort =>
        let ln := mkListener boundPort false in
        let w := mkService (Some server) (Some ln) (root w) true in
        let host := localIPv4 net in
        let host := if String.eqb host "" then "127.0.0.1" else host in
        let actualPort := ln_Port ln in
        (w, (host +:+ ":" +:+ itoa actualPort, None))
    end.

(** Lines 82-88, the goroutine after [srv.Serve(ln)] returned [err]. *)
Definition serveReturned (w : WebDAVService) (err : GoError)
    : WebDAVService * list LogEntry :=
  let log := if bool_decide (err = ErrServerClosed) then [] else [LogServerError err] in
  (mkService (srv w) (listener w) (root w) false, log).

(** [w.srv.Shutdown(ctx)] under a context of the given timeout
    (nanoseconds): the error it returns. *)
Record HTTP : Type := mkHTTP {
  http_Shutdown : Server -> Z -> option GoError
}.

(** [func (w *WebDAVService) Stop(ctx) error] *)
Definition Stop (w : WebDAVService) (http : HTTP) : WebDAVService * option GoError :=
  if negb (running w) then (w, None)
  else
    let ln' :=
      match listener w with
      | Some ln => Some (mkListener (ln_Port ln) true)
      | None => None
      end in
    match srv w with
    | Some s =>
        let s' := mkServer (srv_Dir s) (ReadTimeout s) (WriteTimeout s)
                    (IdleTimeout s) true in
        match http_Shutdown http s (5 * Second) with
        | Some err => (mkService (Some s') ln' (root w) (running w), Some err)
        | None => (mkService (Some s') ln' (root w) false, None)
        end
    | None => (mkService (srv w) ln' (root w) false, None)
    end.

(** [func (w *WebDAVService) IsRunning() bool] *)
Definition IsRunning (w : WebDAVService) : bool := running w.

(** [func (w *WebDAVService) Root() string] *)
Definition Root (w : WebDAVService) : string := root w.

(** *** Histories of one service *)

(** What can happen to a service: a call of [Start] or [Stop] that runs to
    its return, each with the answers the world gives during it, and the
    locked section of a serving goroutine after its [Serve] returned. *)
Inductive Event : Type :=
  | CallStart (net : Network) (port : Z)
  | CallStop (http : HTTP)
  | ServeReturned (err : GoError).

(** The service and the number of goroutines of [Start] still on their way
    to line 86. *)
Record System : Type := mkSystem {
  service : WebDAVService;
  serving : nat
}.

Definition step (sys : System) (e : Event) : System :=
  match e with
  | CallStart net port =>
      let '(w, (_, err)) := Start (service sys) net port in
      match err with
      | None => mkSystem w (S (serving sys))
      | Some _ => mkSystem w (serving sys)
      end
  | CallStop http => mkSystem (Stop (service sys) http).1 (serving sys)
  | ServeReturned err =>
      match serving sys with
      | O => sys
      | S n => mkSystem (serveReturned (service sys) err).1 n
      end
  end.

Definition run (sys : System) (history : list Event) : System :=
  foldl step sys history.

Definition initial (fs : FileSystem) (root : string) : System :=
  mkSystem (NewWebDAVService fs root).1 0.

(** A history of completed [Start] and [Stop] calls only. *)
Definition is_call (e : Event) : bool :=
  match e with
  | CallStart _ _ | CallStop _ => true
  | ServeReturned _ => false
  end.

End WebDAV.

(** ** Vocabulary of the statements *)
Module ScanSpec.
Import Bluetooth.

(** The number of seconds the scan runs for: line 25-28. *)
Definition effective_seconds (seconds : Z) : Z :=
  if seconds <=? 0 then 5 else seconds.

(** An advertisement that carries a display name. *)
Definition named (a : Advertisement) : Prop := adv_LocalName a ≠ EmptyString.

#[global] Instance named_dec a : Decision (named a).
Proof. unfold named. apply _. Defined.

(** The last advertisement of [advs] that comes from [addr] and carries a
    display name. *)
Definition last_named_from (addr : string) (advs : list Advertisement)
    : option Advertisement :=
  last (filter (λ a, adv_Addr a = addr ∧ named a) advs).

(** The map the handler has built once it has run on each of [advs]. *)
Definition collected (advs : list Advertisement) : gmap string Device :=
  (foldl advHandler (∅, []) advs).1.

(** The error of [ble.Scan] is the context's deadline or cancellation. *)
Definition deadline_or_cancel (e : GoError) : bool :=
  chain_Is e DeadlineExceeded || chain_Is e Canceled.

(** The scenario of the specification: two advertisements of peer A, then
    an unnamed one of peer B, and the scan ends on its deadline. *)
Definition scenario_advs : list Advertisement :=
  [mkAdv "A" "x" (-40) 0; mkAdv "A" "x" (-30) 0; mkAdv "B" "" (-50) 0].

Definition scenario_ble : BleStack :=
  mkBle None (fun _ => (scenario_advs, Some DeadlineExceeded)).

(** A stack whose scan fails for a reason of its own after one
    advertisement. *)
Definition broken_ble : BleStack :=
  mkBle None (fun _ => ([mkAdv "A" "x" (-40) 0], Some (ErrorString "hci: no device"))).

End ScanSpec.

Module ServerSpec.
Import WebDAV.

(** The interface is administratively up: bit 0 of its flags. *)
Definition is_up (iface : Interface) : bool := Z.testbit (Flags iface) 0.

(** The interface is the loopback interface: bit 2 of its flags. *)
Definition is_loopback (iface : Interface) : bool := Z.testbit (Flags iface) 2.

(** An interface the resolver does not skip. *)
Definition considered (iface : Interface) : bool :=
  is_up iface && negb (is_loopback iface).

(** The addresses assigned to an interface, none when [Addrs()] fails. *)
Definition assigned (iface : Interface) : list Addr :=
  match Addrs iface with
  | (addrs, None) => addrs
  | (_, Some _) => []
  end.

(** An address that is not a loopback address and is expressible as IPv4. *)
Definition usable (a : Addr) : bool :=
  negb (IsLoopback (addr_ip a)) && negb (is_nil (To4 (addr_ip a))).

(** The text of an address in its IPv4 form. *)
Definition render (a : Addr) : string := IP_String (To4 (addr_ip a)).

(** The addresses of the interfaces that are not skipped, in the order of
    enumeration. *)
Definition candidates (ifaces : list Interface) : list Addr :=
  flat_map (fun iface => if considered iface then assigned iface else []) ifaces.

(** The host part [Start] reports: the resolver's answer, or the loopback
    address when that is empty. *)
Definition reachable_host (net : Network) : string :=
  if String.eqb (localIPv4 net) "" then "127.0.0.1" else localIPv4 net.

(** The error [Start] gives when the service runs already. *)
Definition AlreadyRunning : GoError := ErrorString "webdav already running".

(** The root [NewWebDAVService] settles on for its argument. *)
Definition resolved_root (fs : FileSystem) (root : string) : string :=
  if decide (root = EmptyString) then
    filepath_Join fs
      (match (os_Getwd fs).2 with Some _ => "." | None => (os_Getwd fs).1 end)
      "shared"
  else root.

(** Both handles of the service are non-nil. *)
Definition handles_present (w : WebDAVService) : Prop :=
  is_Some (listener w) ∧ is_Some (srv w).

(** Worlds for the examples. *)
Definition ip_loopback : IP := [Byte.x7f; Byte.x00; Byte.x00; Byte.x01].
Definition ip_lan : IP := [Byte.xc0; Byte.xa8; Byte.x01; Byte.x07].
Definition ip_v6 : IP := replicate 16 Byte.xfe.

Definition lo : Interface :=
  mkInterface (Z.lor FlagUp FlagLoopback) ([IPNet ip_loopback []], None).
Definition eth_down : Interface := mkInterface FlagBroadcast ([IPNet ip_lan []], None).
Definition eth_empty : Interface := mkInterface (Z.lor FlagUp FlagBroadcast) ([], None).
Definition eth0 : Interface :=
  mkInterface (Z.lor FlagUp FlagBroadcast) ([IPNet ip_v6 []; IPNet ip_lan []], None).

(** A listener on port 0 is bound to port 49152, one on another port to
    that port. *)
Definition listen_any (network address : string) : ListenResult :=
  if String.eqb address "0.0.0.0:0" then Listening 49152 else Listening 8080.

Definition lan_net : Network := mkNetwork listen_any ([lo; eth_down; eth_empty; eth0], None).
Definition lo_net : Network := mkNetwork listen_any ([lo], None).

Definition simple_join (dir name : string) : string := dir +:+ "/" +:+ name.
Definition readonly_fs : FileSystem :=
  mkFileSystem ("/home/u", None) (fun _ => Some (ErrorString "read-only file system"))
    simple_join.

Definition shutdown_ok : HTTP := mkHTTP (fun _ _ => None).
Definition shutdown_late : HTTP := mkHTTP (fun _ _ => Some DeadlineExceeded).

Definition fresh : WebDAVService := (NewWebDAVService readonly_fs "/srv/share").1.
Definition started : WebDAVService := (Start fresh lan_net 0).1.

End ServerSpec.

(** ** The API facade, package v1 *)
Module V1.
Import Bluetooth.

(** What [fmt.Println] is given, one constructor per call site's argument
    type: an error or a string. *)
Inductive Printed : Type :=
  | PrintError (err : GoError)
  | PrintString (s : string).

(** The standard library's [json.Marshal] on a [[]Device] (nil is [None]):
    the bytes, as a string, and the error.  It is not code of this
    repository and is taken as given. *)
Record Json : Type := mkJson {
  json_Marshal : option (list Device) -> string * option GoError
}.

(** [func (g *BluetoothService) BluetoothScanApi(seconds int) (string, error)];
    what it prints and what the scan logs are returned beside the result. *)
Definition BluetoothScanApi (ble : BleStack) (json : Json) (seconds : Z)
    : (string * option GoError) * list Printed * list LogEntry :=
  let '((devs, err), log) := Scan ble seconds in
  match err with
  | Some e => ((EmptyString, Some e), [PrintError e], log)
  | None =>
      let '(b, err) := json_Marshal json devs in
      match err with
      | Some e => ((EmptyString, Some e), [PrintError e], log)
      | None => ((b, None), [PrintString b], log)
      end
  end.

End V1.

Module ApiSpec.
Import Bluetooth V1.

(** The advertisements of a stream that carry a display name. *)
Definition named_only (advs : list Advertisement) : list Advertisement :=
  filter ScanSpec.named advs.

(** The stack [ble] with the unnamed advertisements taken out of every
    stream it delivers. *)
Definition without_unnamed (ble : BleStack) : BleStack :=
  mkBle (dev_NewDevice ble)
        (fun d => (named_only (ble_Scan ble d).1, (ble_Scan ble d).2)).

(** The addresses of the named advertisements of a stream. *)
Definition named_addresses (advs : list Advertisement) : gset string :=
  list_to_set (adv_Addr <$> named_only advs).

(** A stack with no adapter. *)
Definition no_adapter_ble : BleStack :=
  mkBle (Some (ErrorString "no adapter")) (fun _ => (ScanSpec.scenario_advs, None)).

(** Two streams that differ by the order of two neighbouring
    advertisements of different peers; both scans end by cancellation. *)
Definition swap_ble : BleStack :=
  mkBle None (fun _ => ([mkAdv "A" "x" (-40) 0; mkAdv "A" "y" (-30) 0;
                         mkAdv "B" "z" (-50) 0], Some Canceled)).
Definition swapped_ble : BleStack :=
  mkBle None (fun _ => ([mkAdv "A" "x" (-40) 0; mkAdv "B" "z" (-50) 0;
                         mkAdv "A" "y" (-30) 0], Some Canceled)).

(** A marshaller that only tells a nil slice from a list by its length. *)
Definition count_json : Json :=
  mkJson (fun devs =>
            match devs with
            | None => ("null"%string, None)
            | Some l => (itoa (Z.of_nat (length l)), None)
            end).

(** Worlds for the lifecycle examples: a port that is taken. *)
Definition listen_taken (network address : string) : WebDAV.ListenResult :=
  WebDAV.ListenFailed (ErrorString "address already in use").
Definition taken_net : WebDAV.Network := WebDAV.mkNetwork listen_taken ([], None).

End ApiSpec.

(** * Theorems *)

(** ** The scan coordinator *)
Section ScanCoordinator.
Import Bluetooth ScanSpec.

Implicit Types (a : Advertisement) (advs : list Advertisement)
  (st : gmap string Device * list LogEntry) (d : Device) (addr : string).

Lemma filter_ext_elem_of {A} (P Q : A → Prop)
    `{!∀ x, Decision (P x), !∀ x, Decision (Q x)} (l : list A) :
  (∀ x, x ∈ l → P x ↔ Q x) → filter P l = filter Q l.
Proof.
  induction l as [|x l IH]; intros Hext; [done|].
  rewrite !filter_cons.
  rewrite IH by (intros y Hy; apply Hext; by right).
  pose proof (Hext x (list_elem_of_here x l)).
  repeat case_decide; tauto || done.
Qed.

Lemma eqb_empty_named a :
  String.eqb (adv_LocalName a) "" = false ↔ named a.
Proof. unfold named. by rewrite String.eqb_neq. Qed.

Lemma advHandler_unnamed st a : ¬ named a → advHandler st a = st.
Proof.
  intros Hn. unfold advHandler.
  destruct (String.eqb (adv_LocalName a) "") eqn:E; [done|].
  by apply eqb_empty_named in E.
Qed.

Lemma advHandler_named st a :
  named a →
  advHandler st a =
    (<[adv_Addr a := device_of a]> st.1,
     st.2 ++ [LogAdvReceived (adv_Addr a) (adv_LocalName a) (adv_RSSI a) (adv_Services a)]).
Proof.
  intros Hn. unfold advHandler.
  apply eqb_empty_named in Hn. by rewrite Hn.
Qed.

Lemma last_named_from_cons addr a advs :
  last_named_from addr (a :: advs) =
    match last_named_from addr advs with
    | Some b => Some b
    | None => if decide (adv_Addr a = addr ∧ named a) then Some a else None
    end.
Proof.
  unfold last_named_from. rewrite filter_cons.
  case_decide; [|by destruct (last _)].
  by rewrite last_cons.
Qed.

(** Last write wins: what the map holds at an address after a stream. *)
Lemma foldl_advHandler_lookup advs : ∀ st addr,
  (foldl advHandler st advs).1 !! addr =
    match last_named_from addr advs with
    | Some a => Some (device_of a)
    | None => st.1 !! addr
    end.
Proof.
  induction advs as [|a advs IH]; intros st addr; [done|].
  cbn [foldl]. rewrite IH, last_named_from_cons.
  destruct (last_named_from addr advs) as [b|]; [done|].
  destruct (decide (named a)) as [Hn|Hn].
  - rewrite advHandler_named by done. cbn [fst].
    case_decide as Hd.
    + destruct Hd as [<- _]. by rewrite lookup_insert_eq.
    + rewrite lookup_insert_ne; [done|]. intros Heq. by apply Hd.
  - rewrite advHandler_unnamed by done.
    case_decide as Hd; [by destruct Hd|done].
Qed.

(** The map the handler builds does not depend on the log so far. *)
Lemma foldl_advHandler_log advs : ∀ m log0 log,
  foldl advHandler (m, log0 ++ log) advs =
    ((foldl advHandler (m, log) advs).1, log0 ++ (foldl advHandler (m, log) advs).2).
Proof.
  induction advs as [|a advs IH]; intros m log0 log; [done|].
  cbn [foldl]. destruct (decide (named a)) as [Hn|Hn].
  - rewrite !advHandler_named by done. cbn [fst snd].
    rewrite <- (assoc_L (++)). apply IH.
  - rewrite !advHandler_unnamed by done. apply IH.
Qed.

Lemma foldl_advHandler_collected advs log :
  (foldl advHandler (∅, log) advs).1 = collected advs.
Proof.
  unfold collected.
  rewrite <- (app_nil_r log) at 1. by rewrite foldl_advHandler_log.
Qed.

Lemma collected_lookup advs addr :
  collected advs !! addr = device_of <$> last_named_from addr advs.
Proof.
  unfold collected. rewrite foldl_advHandler_lookup. cbn [fst].
  rewrite lookup_empty. by destruct (last_named_from addr advs).
Qed.

Lemma last_named_from_Some addr advs a :
  last_named_from addr advs = Some a →
  a ∈ advs ∧ adv_Addr a = addr ∧ named a.
Proof.
  unfold last_named_from. intros H%last_Some_elem_of.
  apply list_elem_of_filter in H. tauto.
Qed.

Lemma collected_key advs addr d :
  collected advs !! addr = Some d → Addr d = addr ∧ Name d ≠ EmptyString.
Proof.
  rewrite collected_lookup. intros (a & Ha & ->)%fmap_Some.
  apply last_named_from_Some in Ha as (_ & <- & Hn). done.
Qed.

Lemma elem_of_collect (m : gmap string Device) d :
  d ∈ collect m ↔ ∃ addr, m !! addr = Some d.
Proof.
  unfold collect. rewrite list_elem_of_fmap. split.
  - intros ([k d'] & -> & H%elem_of_map_to_list). by exists k.
  - intros (k & H). exists (k, d). split; [done|]. by apply elem_of_map_to_list.
Qed.

Lemma elem_of_collected advs d :
  d ∈ collect (collected advs) ↔
  ∃ a, last_named_from (Addr d) advs = Some a ∧ d = device_of a.
Proof.
  rewrite elem_of_collect. split.
  - intros (addr & H). pose proof (collected_key _ _ _ H) as [<- _].
    rewrite collected_lookup in H. apply fmap_Some in H as (a & ? & ?). eauto.
  - intros (a & H & ->). exists (Addr (device_of a)).
    rewrite collected_lookup, H. done.
Qed.

Lemma collect_addrs_NoDup advs : NoDup (Addr <$> collect (collected advs)).
Proof.
  unfold collect.
  assert ((Addr <$> (map_to_list (collected advs)).*2) = (map_to_list (collected advs)).*1) as ->.
  { rewrite <- list_fmap_compose. apply Forall_fmap_ext, Forall_forall.
    intros [k d] H%elem_of_map_to_list. cbn.
    by apply collected_key in H as [-> _]. }
  apply NoDup_fst_map_to_list.
Qed.

Lemma collected_one_address advs addr :
  Forall (λ a, adv_Addr a = addr) advs →
  collect (collected advs) =
    match last (filter named advs) with
    | Some a => [device_of a]
    | None => []
    end.
Proof.
  intros Hall. rewrite Forall_forall in Hall.
  assert (last_named_from addr advs = last (filter named advs)) as Hsame.
  { unfold last_named_from. f_equal. apply filter_ext_elem_of.
    intros a Ha. specialize (Hall a Ha). tauto. }
  assert (∀ k, k ≠ addr → last_named_from k advs = None) as Hother.
  { intros k Hk. destruct (last_named_from k advs) as [a|] eqn:E; [|done].
    apply last_named_from_Some in E as (Ha & Hk' & _).
    specialize (Hall a Ha). congruence. }
  assert (collected advs =
          match last (filter named advs) with
          | Some a => {[addr := device_of a]}
          | None => ∅
          end) as ->.
  { apply map_eq. intros k. rewrite collected_lookup.
    destruct (decide (k = addr)) as [->|Hk].
    - rewrite Hsame. destruct (last (filter named advs)); cbn.
      + by rewrite lookup_singleton_eq.
      + by rewrite lookup_empty.
    - rewrite (Hother k Hk). cbn.
      destruct (last (filter named advs)).
      + by rewrite lookup_singleton_ne.
      + by rewrite lookup_empty. }
  unfold collect. destruct (last (filter named advs)).
  - by rewrite map_to_list_singleton.
  - by rewrite map_to_list_empty.
Qed.

Lemma scanImpl_no_device ble seconds err :
  dev_NewDevice ble = Some err → (scanImpl ble seconds).1 = (None, Some err).
Proof. intros H. unfold scanImpl. destruct (seconds <=? 0); by rewrite H. Qed.

(** What [scanImpl] returns once the device is created. *)
Lemma scanImpl_result ble seconds advs err :
  dev_NewDevice ble = None →
  ble_Scan ble (scan_timeout (effective_seconds seconds)) = (advs, err) →
  (scanImpl ble seconds).1 =
    match err with
    | None => (Some (collect (collected advs)), None)
    | Some e =>
        if deadline_or_cancel e then (Some (collect (collected advs)), None)
        else (None, Some e)
    end.
Proof.
  intros Hdev Hscan. unfold scanImpl, effective_seconds in *.
  destruct (seconds <=? 0); rewrite Hdev, Hscan;
    match goal with
    | |- context [foldl advHandler (∅, ?l) advs] =>
        pose proof (foldl_advHandler_collected advs l) as Hc;
        destruct (foldl advHandler (∅, l) advs) as [m log']
    end; cbn [fst] in Hc; subst m;
    (destruct err as [e|]; [|done]);
    unfold errors_Is, deadline_or_cancel;
    by destruct (chain_Is e DeadlineExceeded || chain_Is e Canceled).
Qed.

(** C1.  When a scan returns a device list, and the advertisements handed to
    the handler during it all come from one address, the list is the one
    Device built from the last advertisement that carries a display name
    (the empty list when none does).  For any stream: the Device of the list
    with a given address is the one built from the last named advertisement
    of that address; every Device of the list is built from a named
    advertisement, so an unnamed one contributes none; and no two Devices
    of the list share an address. *)
Theorem scan_last_named_event_wins ble seconds devs :
  (scanImpl ble seconds).1 = (Some devs, None) →
  let advs := (ble_Scan ble (scan_timeout (effective_seconds seconds))).1 in
  (∀ addr, Forall (λ a, adv_Addr a = addr) advs →
     devs = match last (filter named advs) with
            | Some a => [device_of a]
            | None => []
            end)
  ∧ (∀ addr d, d ∈ devs ∧ Addr d = addr ↔
               device_of <$> last_named_from addr advs = Some d)
  ∧ (∀ d, d ∈ devs → ∃ a, a ∈ advs ∧ named a ∧ d = device_of a)
  ∧ NoDup (Addr <$> devs).
Proof.
  intros Hres advs.
  destruct (dev_NewDevice ble) as [err|] eqn:Hdev.
  { rewrite (scanImpl_no_device _ _ _ Hdev) in Hres. done. }
  destruct (ble_Scan ble (scan_timeout (effective_seconds seconds)))
    as [advs' err] eqn:Hscan.
  rewrite (scanImpl_result _ _ _ _ Hdev Hscan) in Hres.
  assert (devs = collect (collected advs)) as ->.
  { subst advs. cbn [fst]. destruct err as [e|]; [destruct (deadline_or_cancel e)|];
      congruence. }
  split_and!.
  - apply collected_one_address.
  - intros addr d. rewrite elem_of_collected. split.
    + intros [(a & Ha & ->) <-]. by rewrite Ha.
    + intros (a & Ha & ->)%fmap_Some.
      pose proof (last_named_from_Some _ _ _ Ha) as (_ & <- & _).
      split; [by exists a|done].
  - intros d (a & Ha & ->)%elem_of_collected.
    apply last_named_from_Some in Ha as (? & _ & ?). by exists a.
  - apply collect_addrs_NoDup.
Qed.

(** The scenario of the specification, for C1. *)
Lemma scan_last_named_event_wins_witness :
  let advs := scenario_advs in
  let devs := [mkDevice "A" "x" (-30)] in
  (∀ addr, Forall (λ a, adv_Addr a = addr) advs →
     devs = match last (filter named advs) with
            | Some a => [device_of a]
            | None => []
            end)
  ∧ (∀ addr d, d ∈ devs ∧ Addr d = addr ↔
               device_of <$> last_named_from addr advs = Some d)
  ∧ (∀ d, d ∈ devs → ∃ a, a ∈ advs ∧ named a ∧ d = device_of a)
  ∧ NoDup (Addr <$> devs).
Proof.
  exact (scan_last_named_event_wins scenario_ble 2 [mkDevice "A" "x" (-30)] eq_refl).
Defined.

(** C4.  Once the device is created: if [ble.Scan] ends with the context's
    deadline or cancellation (bare, or anywhere in the error's chain),
    [scanImpl] returns the devices collected so far and a nil error; if it
    ends with any other error, [scanImpl] returns that error and a nil
    slice. *)
Theorem scan_termination_outcome ble seconds advs e :
  dev_NewDevice ble = None →
  ble_Scan ble (scan_timeout (effective_seconds seconds)) = (advs, Some e) →
  (e = DeadlineExceeded ∨ e = Canceled →
     (scanImpl ble seconds).1 = (Some (collect (collected advs)), None))
  ∧ (deadline_or_cancel e = true →
     (scanImpl ble seconds).1 = (Some (collect (collected advs)), None))
  ∧ (deadline_or_cancel e = false →
     (scanImpl ble seconds).1 = (None, Some e)).
Proof.
  intros Hdev Hscan. rewrite (scanImpl_result _ _ _ _ Hdev Hscan).
  split_and!.
  - by intros [-> | ->].
  - by intros ->.
  - by intros ->.
Qed.

(** A scan ended by its deadline and a scan that broke, for C4. *)
Lemma scan_termination_outcome_witness :
  (scanImpl scenario_ble 2).1 = (Some [mkDevice "A" "x" (-30)], None)
  ∧ (scanImpl broken_ble 2).1 = (None, Some (ErrorString "hci: no device")).
Proof.
  split.
  - exact (proj1 (scan_termination_outcome scenario_ble 2 scenario_advs
                    DeadlineExceeded eq_refl eq_refl) (or_introl eq_refl)).
  - exact (proj2 (proj2 (scan_termination_outcome broken_ble 2
                    [mkAdv "A" "x" (-40) 0] (ErrorString "hci: no device")
                    eq_refl eq_refl)) eq_refl).
Defined.

(** C6.  For [seconds <= 0], [scanImpl] returns what it returns for 5, logs
    what it logs for 5 after one line about the default, and asks the BLE
    stack for a scan of 5 seconds and nothing else. *)
Theorem scan_nonpositive_seconds_default ble seconds :
  seconds <= 0 →
  (scanImpl ble seconds).1 = (scanImpl ble 5).1
  ∧ (scanImpl ble seconds).2 = LogNonPositiveSeconds seconds :: (scanImpl ble 5).2
  ∧ (∀ ble', dev_NewDevice ble' = dev_NewDevice ble →
             ble_Scan ble' (5 * 1000000000) = ble_Scan ble (5 * 1000000000) →
             scanImpl ble' seconds = scanImpl ble seconds).
Proof.
  intros Hle. apply Z.leb_le in Hle.
  assert (∀ b, scanImpl b seconds =
               ((scanImpl b 5).1, LogNonPositiveSeconds seconds :: (scanImpl b 5).2))
    as Heq.
  { intros b. unfold scanImpl. rewrite Hle. change (5 <=? 0) with false. cbv iota beta.
    destruct (dev_NewDevice b); [done|].
    destruct (ble_Scan b (scan_timeout 5)) as [advs err].
    change (([LogNonPositiveSeconds seconds] ++ [LogCreatingDevice]) ++ [LogStartingScan 5])
      with ([LogNonPositiveSeconds seconds] ++ (([] ++ [LogCreatingDevice]) ++ [LogStartingScan 5])).
    rewrite foldl_advHandler_log.
    destruct (foldl advHandler _ advs) as [m log']. cbn [fst snd].
    destruct err as [e|]; [|done].
    by destruct (errors_Is (Some e) DeadlineExceeded || errors_Is (Some e) Canceled). }
  split_and!.
  - by rewrite Heq.
  - by rewrite Heq.
  - intros ble' Hdev Hscan. rewrite !Heq.
    assert (scanImpl ble' 5 = scanImpl ble 5) as ->; [|done].
    unfold scanImpl. change (5 <=? 0) with false. cbv iota beta.
    change (scan_timeout 5) with (5 * 1000000000). by rewrite Hdev, Hscan.
Qed.

(** A scan of -3 seconds, for C6. *)
Lemma scan_nonpositive_seconds_default_witness :
  (scanImpl scenario_ble (-3)).1 = (Some [mkDevice "A" "x" (-30)], None).
Proof.
  exact (eq_trans
    (proj1 (scan_nonpositive_seconds_default scenario_ble (-3) ltac:(lia)))
    eq_refl).
Defined.
End ScanCoordinator.

(** ** The address resolver *)
Section AddressResolver.
Import WebDAV ServerSpec.

Implicit Types (iface : Interface) (ifaces : list Interface) (a : Addr)
  (addrs : list Addr) (ip : IP).

Lemma testbit_5 n : 0 <= n → Z.testbit 5 n = bool_decide (n = 0 ∨ n = 2).
Proof.
  intros Hn.
  destruct (decide (n = 0)) as [->|]; [done|].
  destruct (decide (n = 1)) as [->|]; [done|].
  destruct (decide (n = 2)) as [->|]; [done|].
  rewrite bool_decide_eq_false_2 by lia.
  apply Z.bits_above_log2; [lia|]. change (Z.log2 5) with 2. lia.
Qed.

(** The flag test of line 142, bit by bit. *)
Lemma flag_test_considered iface :
  (Z.land (Flags iface) (Z.lor FlagUp FlagLoopback) =? FlagUp) = considered iface.
Proof.
  unfold considered, is_up, is_loopback.
  change (Z.lor FlagUp FlagLoopback) with 5. change FlagUp with 1.
  set (f := Flags iface).
  assert (Z.land f 5 =
          (if Z.testbit f 0 then 1 else 0) + (if Z.testbit f 2 then 4 else 0)) as ->.
  { apply Z.bits_inj'. intros n Hn. rewrite Z.land_spec, testbit_5 by done.
    destruct (decide (n = 0)) as [->|].
    { rewrite bool_decide_eq_true_2 by lia. rewrite andb_true_r.
      by destruct (Z.testbit f 0), (Z.testbit f 2). }
    destruct (decide (n = 2)) as [->|].
    { rewrite bool_decide_eq_true_2 by lia. rewrite andb_true_r.
      by destruct (Z.testbit f 0), (Z.testbit f 2). }
    rewrite bool_decide_eq_false_2 by lia. rewrite andb_false_r.
    symmetry.
    destruct (decide (n = 1)) as [->|].
    { by destruct (Z.testbit f 0), (Z.testbit f 2). }
    destruct (Z.testbit f 0), (Z.testbit f 2); cbn [Z.add Pos.add];
      try apply Z.bits_0;
      (apply Z.bits_above_log2; [lia|];
       match goal with
       | |- Z.log2 ?c < _ =>
           let v := eval compute in (Z.log2 c) in change (Z.log2 c) with v
       end; lia). }
  by destruct (Z.testbit f 0), (Z.testbit f 2).
Qed.

Lemma To4_nil_or_four ip : To4 ip = [] ∨ length (To4 ip) = 4%nat.
Proof.
  unfold To4. destruct (Nat.eqb (length ip) 4) eqn:E4.
  { right. by apply Nat.eqb_eq. }
  destruct (Nat.eqb (length ip) 16) eqn:E16; [|by left].
  apply Nat.eqb_eq in E16.
  destruct (_ && _ && _ && _); [|by left].
  right. rewrite length_take, length_drop. lia.
Qed.

Lemma append_nonempty_r (s t : string) : t ≠ EmptyString → s +:+ t ≠ EmptyString.
Proof. destruct s; [done|]. discriminate. Qed.

Lemma IP_String_four_nonempty ip : length ip = 4%nat → IP_String ip ≠ EmptyString.
Proof.
  destruct ip as [|a [|b [|c [|d [|e ip]]]]]; try discriminate. intros _.
  unfold IP_String. by apply append_nonempty_r.
Qed.

Lemma usable_step a :
  usable a = negb (is_nil (addr_ip a) || IsLoopback (addr_ip a))
             && negb (is_nil (To4 (addr_ip a))).
Proof.
  unfold usable. by destruct (addr_ip a).
Qed.

Lemma render_usable_nonempty a : usable a = true → render a ≠ EmptyString.
Proof.
  unfold usable, render. intros [_ H]%andb_true_iff.
  destruct (To4_nil_or_four (addr_ip a)) as [E|E].
  - by rewrite E in H.
  - by apply IP_String_four_nonempty.
Qed.

Lemma find_app {A} (f : A → bool) (l1 l2 : list A) :
  find f (l1 ++ l2) = match find f l1 with Some x => Some x | None => find f l2 end.
Proof. induction l1 as [|x l1 IH]; [done|]. cbn. by destruct (f x). Qed.

(** The inner loop returns the text of the first usable address. *)
Lemma firstIPv4_find addrs : firstIPv4 addrs = render <$> find usable addrs.
Proof.
  induction addrs as [|a addrs IH]; [done|].
  cbn [firstIPv4 find]. rewrite usable_step.
  destruct (is_nil (addr_ip a) || IsLoopback (addr_ip a)); [done|].
  cbn [negb andb]. by destruct (is_nil (To4 (addr_ip a))).
Qed.

(** The two loops together return the text of the first usable address among
    those of the interfaces not skipped. *)
Lemma scanInterfaces_find ifaces :
  scanInterfaces ifaces = default EmptyString (render <$> find usable (candidates ifaces)).
Proof.
  induction ifaces as [|iface ifaces IH]; [done|].
  cbn [scanInterfaces candidates flat_map]. fold (candidates ifaces).
  rewrite find_app, flag_test_considered.
  destruct (considered iface); cbn [negb]; [|done].
  unfold assigned. destruct (Addrs iface) as [addrs [err|]]; [done|].
  rewrite firstIPv4_find. by destruct (find usable addrs).
Qed.

Lemma candidates_app ifaces1 ifaces2 :
  candidates (ifaces1 ++ ifaces2) = candidates ifaces1 ++ candidates ifaces2.
Proof. unfold candidates. by rewrite flat_map_app. Qed.

Lemma candidates_loopback_only ifaces :
  Forall (λ iface, is_loopback iface = true) ifaces → candidates ifaces = [].
Proof.
  induction 1 as [|iface ifaces Hl _ IH]; [done|].
  cbn. fold (candidates ifaces). rewrite IH.
  unfold considered. by rewrite Hl, andb_false_r.
Qed.

Lemma candidates_nothing_assigned ifaces :
  Forall (λ i, considered i = false ∨ assigned i = []) ifaces → candidates ifaces = [].
Proof.
  induction 1 as [|i ifaces Hi _ IH]; [done|].
  cbn. fold (candidates ifaces). rewrite IH.
  destruct Hi as [-> | ->]; [done|]. by destruct (considered i).
Qed.

(** C8.  When [net.Interfaces()] succeeds, [localIPv4] returns the text of
    the first address, in the order of enumeration, that is not a loopback
    address and has an IPv4 form, among the addresses of the interfaces that
    are up and not loopback; it returns the empty string exactly when those
    interfaces have no such address, hence on a host whose interfaces are
    all loopback; and when the first interface that is not skipped and has
    an address assigned has such an address, the answer is the first such
    address of that interface.  A failing [net.Interfaces()] gives the empty
    string as well; no error is returned in any case. *)
Theorem localIPv4_first_usable_address listen ifaces :
  let host := localIPv4 (mkNetwork listen (ifaces, None)) in
  host = default EmptyString (render <$> find usable (candidates ifaces))
  ∧ (host = EmptyString ↔ Forall (λ a, usable a = false) (candidates ifaces))
  ∧ (Forall (λ iface, is_loopback iface = true) ifaces → host = EmptyString)
  ∧ (∀ pre iface post addrs a,
       ifaces = pre ++ iface :: post →
       Forall (λ i, considered i = false ∨ assigned i = []) pre →
       considered iface = true →
       Addrs iface = (addrs, None) →
       find usable addrs = Some a →
       host = render a)
  ∧ (∀ err, localIPv4 (mkNetwork listen (ifaces, Some err)) = EmptyString).
Proof.
  intros host.
  assert (host = default EmptyString (render <$> find usable (candidates ifaces))) as Hhost.
  { subst host. unfold localIPv4. cbn. apply scanInterfaces_find. }
  split_and!; [done| | | |done].
  - rewrite Hhost. destruct (find usable (candidates ifaces)) as [a|] eqn:E; cbn.
    + apply find_some in E as [Hin Hu]. split.
      * intros H. by apply render_usable_nonempty in Hu.
      * intros Hall. rewrite Forall_forall in Hall.
        apply list_elem_of_In in Hin. specialize (Hall a Hin). congruence.
    + split; [|done]. intros _. apply Forall_forall. intros a Ha.
      apply (find_none _ _ E). by apply list_elem_of_In.
  - intros Hlo. rewrite Hhost.
    by rewrite candidates_loopback_only.
  - intros pre iface post addrs a -> Hpre Hc Haddrs Hfind.
    rewrite Hhost, candidates_app.
    rewrite (candidates_nothing_assigned pre) by done.
    cbn [app candidates flat_map]. rewrite Hc. unfold assigned. rewrite Haddrs.
    rewrite find_app, Hfind. done.
Qed.

(** A host with a LAN interface and a host with a loopback interface only, for C8. *)
Lemma localIPv4_first_usable_address_witness :
  localIPv4 lan_net = "192.168.1.7"%string ∧ localIPv4 lo_net = EmptyString.
Proof.
  split.
  - apply (proj1 (proj2 (proj2 (proj2
      (localIPv4_first_usable_address listen_any [lo; eth_down; eth_empty; eth0]))))
      [lo; eth_down; eth_empty] eth0 [] [IPNet ip_v6 []; IPNet ip_lan []]
      (IPNet ip_lan [])); try reflexivity.
    repeat (constructor; [first [left; reflexivity | right; reflexivity]|]).
    constructor.
  - apply (proj1 (proj2 (proj2 (localIPv4_first_usable_address listen_any [lo])))).
    repeat constructor.
Defined.
End AddressResolver.

(** ** The server lifecycle *)
Section ServerLifecycle.
Import WebDAV ServerSpec.

Implicit Types (w : WebDAVService) (net : Network) (http : HTTP)
  (sys : System) (history : list Event).

Lemma itoa_inj a b : itoa a = itoa b → a = b.
Proof.
  unfold itoa. intros H.
  apply (f_equal NilEmpty.int_of_string) in H.
  rewrite !NilEmpty.isi in H.
  rewrite <- (DecimalZ.of_to a), <- (DecimalZ.of_to b). congruence.
Qed.

Lemma append_inv_head (s t u : string) : s +:+ t = s +:+ u → t = u.
Proof. induction s as [|c s IH]; cbn; [done|]. intros [= H]. by apply IH. Qed.

Lemma Start_running w net port :
  running w = true → Start w net port = (w, (EmptyString, Some AlreadyRunning)).
Proof. intros H. unfold Start. by rewrite H. Qed.

Lemma Start_success w net port w' addr :
  Start w net port = (w', (addr, None)) →
  ∃ boundPort,
    running w = false
    ∧ net_Listen net "tcp" ("0.0.0.0:" +:+ itoa port) = Listening boundPort
    ∧ w' = mkService
             (Some (mkServer (root w) (5 * Second) (30 * Second) (60 * Second) false))
             (Some (mkListener boundPort false)) (root w) true
    ∧ addr = reachable_host net +:+ ":" +:+ itoa boundPort.
Proof.
  unfold Start. destruct (running w); [done|].
  destruct (net_Listen net "tcp" _) as [boundPort|err]; [|done].
  intros [= <- <-]. by exists boundPort.
Qed.

(** C9.  A [Start] that returns a nil error returns the host, a colon and the
    port in decimal, where the host is the answer of [localIPv4], or
    127.0.0.1 when that is empty, and the port is the one of the listener
    the service now holds: the port the operating system bound, not the
    port asked for.  When the bound port is positive, as the operating
    system's is for a request of port 0, the text does not end in port 0. *)
Theorem Start_reports_bound_port w net port w' addr :
  Start w net port = (w', (addr, None)) →
  ∃ boundPort,
    net_Listen net "tcp" ("0.0.0.0:" +:+ itoa port) = Listening boundPort
    ∧ listener w' = Some (mkListener boundPort false)
    ∧ addr = reachable_host net +:+ ":" +:+ itoa boundPort
    ∧ (localIPv4 net = EmptyString → addr = "127.0.0.1:" +:+ itoa boundPort)
    ∧ (localIPv4 net ≠ EmptyString → addr = localIPv4 net +:+ ":" +:+ itoa boundPort)
    ∧ (0 < boundPort → addr ≠ reachable_host net +:+ ":" +:+ itoa 0)
    ∧ (boundPort ≠ port → addr ≠ reachable_host net +:+ ":" +:+ itoa port).
Proof.
  intros (boundPort & _ & Hl & -> & ->)%Start_success.
  exists boundPort. split_and!; try done.
  - unfold reachable_host. by intros ->.
  - unfold reachable_host. intros H%String.eqb_neq. by rewrite H.
  - intros Hpos H%append_inv_head%append_inv_head%itoa_inj. lia.
  - intros Hne H%append_inv_head%append_inv_head%itoa_inj. done.
Qed.

(** [Start] on port 0 with port 49152 assigned, for C9. *)
Lemma Start_reports_bound_port_witness :
  ∃ boundPort,
    net_Listen lan_net "tcp" ("0.0.0.0:" +:+ itoa 0) = Listening boundPort
    ∧ listener started = Some (mkListener boundPort false)
    ∧ "192.168.1.7:49152"%string = reachable_host lan_net +:+ ":" +:+ itoa boundPort
    ∧ (localIPv4 lan_net = EmptyString →
       "192.168.1.7:49152"%string = "127.0.0.1:" +:+ itoa boundPort)
    ∧ (localIPv4 lan_net ≠ EmptyString →
       "192.168.1.7:49152"%string = localIPv4 lan_net +:+ ":" +:+ itoa boundPort)
    ∧ (0 < boundPort →
       "192.168.1.7:49152"%string ≠ reachable_host lan_net +:+ ":" +:+ itoa 0)
    ∧ (boundPort ≠ 0 →
       "192.168.1.7:49152"%string ≠ reachable_host lan_net +:+ ":" +:+ itoa 0).
Proof.
  exact (Start_reports_bound_port fresh lan_net 0 started "192.168.1.7:49152" eq_refl).
Defined.

(** C5.  On a running service, [Start] returns the empty string and the
    error "webdav already running", and leaves every field as it was; so
    after a [Start] that succeeded, the listener whose port it reported is
    still held, open, after a second [Start]. *)
Theorem Start_while_running_rejected w net port :
  running w = true →
  Start w net port = (w, (EmptyString, Some AlreadyRunning))
  ∧ (∀ w0 net0 port0 addr,
       Start w0 net0 port0 = (w, (addr, None)) →
       ∃ boundPort,
         listener (Start w net port).1 = Some (mkListener boundPort false)
         ∧ addr = reachable_host net0 +:+ ":" +:+ itoa boundPort).
Proof.
  intros Hrun. rewrite Start_running by done. split; [done|].
  intros w0 net0 port0 addr (boundPort & _ & _ & -> & ->)%Start_success.
  by exists boundPort.
Qed.

(** A second [Start], for C5. *)
Lemma Start_while_running_rejected_witness :
  Start started lo_net 8080 = (started, (EmptyString, Some AlreadyRunning)).
Proof. exact (proj1 (Start_while_running_rejected started lo_net 8080 eq_refl)). Defined.

Lemma Stop_stopped w http : running w = false → Stop w http = (w, None).
Proof. intros H. unfold Stop. by rewrite H. Qed.

(** C7.  On a service that is not running, [Stop] returns nil and leaves
    every field as it was, whatever [Shutdown] would have answered; so does
    a second [Stop] after it. *)
Theorem Stop_when_stopped_is_noop w http :
  running w = false →
  Stop w http = (w, None)
  ∧ (∀ http', Stop (Stop w http).1 http' = (w, None)).
Proof.
  intros H. rewrite Stop_stopped by done. split; [done|].
  intros http'. by apply Stop_stopped.
Qed.

(** [Stop] on a service never started, for C7. *)
Lemma Stop_when_stopped_is_noop_witness : Stop fresh shutdown_late = (fresh, None).
Proof. exact (proj1 (Stop_when_stopped_is_noop fresh shutdown_late eq_refl)). Defined.

(** A [Stop] that returned nil leaves a service on which [Stop] is a no-op. *)
Lemma Stop_after_successful_Stop w http http' :
  (Stop w http).2 = None →
  running (Stop w http).1 = false
  ∧ Stop (Stop w http).1 http' = ((Stop w http).1, None).
Proof.
  intros H.
  assert (running (Stop w http).1 = false) as Hr.
  { revert H. unfold Stop. destruct (running w) eqn:E; cbn; [|done].
    destruct (srv w) as [s|]; [|done].
    by destruct (http_Shutdown http s (5 * Second)). }
  split; [done|]. by apply Stop_stopped.
Qed.

(** C2.  What the code does where the claim fails: on a running service whose
    [Shutdown] returns an error, [Stop] returns that error at line 115,
    before line 118, and [IsRunning] still answers true. *)
Theorem Stop_failed_shutdown_leaves_running w s http err :
  running w = true →
  srv w = Some s →
  http_Shutdown http s (5 * Second) = Some err →
  (Stop w http).2 = Some err ∧ IsRunning (Stop w http).1 = true.
Proof.
  intros Hrun Hsrv Hsh. unfold Stop, IsRunning. by rewrite Hrun, Hsrv, Hsh.
Qed.

(** A shutdown that exceeds its grace period, for C2. *)
Lemma Stop_failed_shutdown_leaves_running_witness :
  (Stop started shutdown_late).2 = Some DeadlineExceeded
  ∧ IsRunning (Stop started shutdown_late).1 = true.
Proof.
  exact (Stop_failed_shutdown_leaves_running started _ shutdown_late DeadlineExceeded
           eq_refl eq_refl eq_refl).
Defined.

(** The flag is cleared later, by the serving goroutine at line 87. *)
Lemma serveReturned_clears_running w err : IsRunning (serveReturned w err).1 = false.
Proof. done. Qed.

(** A history with a failed [Stop]: the service is still running when [Stop]
    has returned, and stopped once the goroutine has taken the lock. *)
Example failed_Stop_history :
  let after_stop := run (initial readonly_fs "/srv/share")
                      [CallStart lan_net 0; CallStop shutdown_late] in
  IsRunning (service after_stop) = true
  ∧ IsRunning (service (step after_stop (ServeReturned ErrServerClosed))) = false.
Proof. done. Qed.

(** The scenario of the specification: [Start] on port 0, a [Stop] whose
    shutdown succeeds, then [IsRunning]. *)
Example start_stop_scenario :
  IsRunning (service (run (initial readonly_fs "/srv/share")
                        [CallStart lan_net 0; CallStop shutdown_ok])) = false.
Proof. done. Qed.

(** A failed bind leaves the service as it was. *)
Lemma Start_bind_failure w net port err :
  running w = false →
  net_Listen net "tcp" ("0.0.0.0:" +:+ itoa port) = ListenFailed err →
  Start w net port = (w, (EmptyString, Some err)).
Proof. intros Hrun Hl. unfold Start. by rewrite Hrun, Hl. Qed.

(** What [NewWebDAVService] returns and logs. *)
Lemma NewWebDAVService_value fs root :
  (NewWebDAVService fs root).1 = mkService None None (resolved_root fs root) false
  ∧ (NewWebDAVService fs root).2 =
      match os_MkdirAll fs (resolved_root fs root) with
      | Some err => [LogCreateRootFailed err]
      | None => []
      end.
Proof.
  unfold NewWebDAVService, resolved_root.
  destruct (String.eqb_spec root ""); case_decide; try done;
    destruct (os_Getwd fs) as [cwd [err|]]; done.
Qed.

(** C10.  [NewWebDAVService] always returns a service: its root is the
    argument, or [filepath.Join(cwd, "shared")] for the empty argument
    (with "." for [cwd] when [os.Getwd] fails); both handles are nil and it
    is not running.  The answer of [os.MkdirAll] changes nothing of the
    service: a failure is one line of the log. *)
Theorem NewWebDAVService_never_fails fs root :
  (NewWebDAVService fs root).1 = mkService None None (resolved_root fs root) false
  ∧ (NewWebDAVService fs root).2 =
      match os_MkdirAll fs (resolved_root fs root) with
      | Some err => [LogCreateRootFailed err]
      | None => []
      end
  ∧ (∀ mkdir,
       (NewWebDAVService (mkFileSystem (os_Getwd fs) mkdir (filepath_Join fs)) root).1
       = (NewWebDAVService fs root).1)
  ∧ IsRunning (NewWebDAVService fs root).1 = false
  ∧ Root (NewWebDAVService fs root).1 =
      if String.eqb root "" then
        match os_Getwd fs with
        | (_, Some _) => filepath_Join fs "." "shared"
        | (cwd, None) => filepath_Join fs cwd "shared"
        end
      else root.
Proof.
  pose proof (λ fs', NewWebDAVService_value fs' root) as Hnew.
  split_and!.
  - apply Hnew.
  - apply Hnew.
  - intros mkdir. by rewrite !(proj1 (Hnew _)).
  - by rewrite (proj1 (Hnew _)).
  - rewrite (proj1 (Hnew _)). unfold Root, resolved_root. cbn.
    destruct (String.eqb_spec root ""); case_decide; try done.
    by destruct (os_Getwd fs) as [cwd [err|]].
Qed.

(** The invariant of a service's history. *)
Lemma step_invariant sys e :
  (running (service sys) = true → handles_present (service sys)) →
  (is_Some (listener (service sys)) ↔ is_Some (srv (service sys))) →
  (running (service (step sys e)) = true → handles_present (service (step sys e)))
  ∧ (is_Some (listener (service (step sys e))) ↔ is_Some (srv (service (step sys e)))).
Proof.
  intros Hrun Hboth. unfold handles_present in *.
  destruct sys as [w n]. cbn [service] in *.
  destruct e as [net port|http|err]; cbn [step service serving].
  - unfold Start. destruct (running w) eqn:E; cbn.
    { rewrite E. split; [done|done]. }
    destruct (net_Listen net "tcp" _) as [p|err]; cbn; [|by rewrite E].
    split; [|done]. intros _. split; by eexists.
  - unfold Stop. destruct (running w) eqn:E; cbn; [|by rewrite E].
    destruct (Hrun eq_refl) as [[ln Hln] [s Hs]]. rewrite Hln, Hs.
    destruct (http_Shutdown http s (5 * Second)); cbn; (split; [|done]);
      intros _; split; by eexists.
  - destruct n as [|n]; [done|]. cbn. split; [done|]. apply Hboth.
Qed.

Lemma run_invariant history : ∀ sys,
  (running (service sys) = true → handles_present (service sys)) →
  (is_Some (listener (service sys)) ↔ is_Some (srv (service sys))) →
  (running (service (run sys history)) = true →
     handles_present (service (run sys history)))
  ∧ (is_Some (listener (service (run sys history))) ↔
     is_Some (srv (service (run sys history)))).
Proof.
  induction history as [|e history IH]; intros sys H1 H2; [done|].
  cbn [run foldl]. destruct (step_invariant sys e H1 H2) as [H1' H2'].
  by apply IH.
Qed.

(** C3, as amended.  In every state a service reaches through calls of
    [Start] and [Stop] and returns of its serving goroutines, a running
    service holds both handles, and the two handles are nil together or
    non-nil together. *)
Theorem running_implies_handles_present fs root history :
  let w := service (run (initial fs root) history) in
  (running w = true → handles_present w)
  ∧ (is_Some (listener w) ↔ is_Some (srv w)).
Proof.
  apply run_invariant; unfold initial; cbn [service];
    destruct (NewWebDAVService_value fs root) as (-> & _); cbn.
  - done.
  - split; intros [? ?]; done.
Qed.

(** A started service, for C3. *)
Lemma running_implies_handles_present_witness :
  handles_present (service (run (initial readonly_fs "/srv/share") [CallStart lan_net 0])).
Proof.
  exact (proj1 (running_implies_handles_present readonly_fs "/srv/share"
                  [CallStart lan_net 0]) eq_refl).
Defined.

(** C3 as stated fails: after [Start] and a successful [Stop] the service is
    not running and still holds both handles. *)
Lemma handles_outlive_Stop :
  ¬ (∀ fs root history,
       Forall (λ e, is_call e = true) history →
       running (service (run (initial fs root) history)) = true
       ↔ handles_present (service (run (initial fs root) history))).
Proof.
  intros H.
  specialize (H readonly_fs "/srv/share"%string
                [CallStart lan_net 0; CallStop shutdown_ok]).
  destruct H as [_ H]; [by repeat constructor|].
  assert (false = true) as Hf; [|discriminate Hf].
  apply H. split; by eexists.
Qed.
End ServerLifecycle.

(** ** More of the scan coordinator and its facade *)
Section ScanCoordinatorMore.
Import Bluetooth ScanSpec ApiSpec.

Implicit Types (a b : Advertisement) (advs : list Advertisement)
  (st : gmap string Device * list LogEntry) (d : Device) (addr : string)
  (ble : BleStack).

(** [scanImpl] case by case, with its log. *)
Lemma scanImpl_unfold ble seconds :
  scanImpl ble seconds =
    let s := effective_seconds seconds in
    let log0 := (if seconds <=? 0 then [LogNonPositiveSeconds seconds] else [])
                ++ [LogCreatingDevice] in
    match dev_NewDevice ble with
    | Some err => ((None, Some err), log0 ++ [LogCreateDeviceFailed err])
    | None =>
        let advs := (ble_Scan ble (scan_timeout s)).1 in
        let err := (ble_Scan ble (scan_timeout s)).2 in
        let st := foldl advHandler (∅, log0 ++ [LogStartingScan s]) advs in
        let res := collect (collected advs) in
        match err with
        | None =>
            ((Some res, None), (st.2 ++ [LogCollecting]) ++ [LogFoundDevices (length res)])
        | Some e =>
            if deadline_or_cancel e
            then ((Some res, None),
                  ((st.2 ++ [LogScanTimeoutCancel e]) ++ [LogCollecting])
                    ++ [LogFoundDevices (length res)])
            else ((None, Some e), st.2 ++ [LogScanError e])
        end
    end.
Proof.
  unfold scanImpl, effective_seconds.
  destruct (seconds <=? 0); cbv zeta;
    (destruct (dev_NewDevice ble); [done|]);
    match goal with
    | |- context [ble_Scan ble ?t] => destruct (ble_Scan ble t) as [advs err]
    end; cbn [fst snd];
    match goal with
    | |- context [foldl advHandler (∅, ?l) ?x] =>
        pose proof (foldl_advHandler_collected x l) as Hc;
        destruct (foldl advHandler (∅, l) x) as [m log']
    end; cbn [fst snd] in *; subst m;
    (destruct err as [e|]; [|done]);
    unfold errors_Is, deadline_or_cancel;
    by destruct (chain_Is e DeadlineExceeded || chain_Is e Canceled).
Qed.

(** X1.  When [dev.NewDevice] fails, [scanImpl] returns a nil slice and that
    error, whatever [ble.Scan] would have delivered (it is not called), and
    the last line it logs is the failure. *)
Theorem scan_device_failure_skips_scan ble seconds err :
  dev_NewDevice ble = Some err →
  (scanImpl ble seconds).1 = (None, Some err)
  ∧ (∀ scan, scanImpl (mkBle (Some err) scan) seconds = scanImpl ble seconds)
  ∧ last (scanImpl ble seconds).2 = Some (LogCreateDeviceFailed err).
Proof.
  intros H. split_and!.
  - rewrite scanImpl_unfold. cbv zeta. by rewrite H.
  - intros scan. rewrite !scanImpl_unfold. cbv zeta. cbn [dev_NewDevice]. by rewrite H.
  - rewrite scanImpl_unfold. cbv zeta. rewrite H. cbn [snd]. apply last_snoc.
Qed.

(** A host without an adapter, for X1. *)
Lemma scan_device_failure_skips_scan_witness :
  (scanImpl no_adapter_ble 3).1 = (None, Some (ErrorString "no adapter")).
Proof.
  exact (proj1 (scan_device_failure_skips_scan no_adapter_ble 3 _ eq_refl)).
Defined.

(** [scanImpl] returns a slice or an error, never both and never neither. *)
Lemma scan_outcome_shape ble seconds :
  (∃ devs, (scanImpl ble seconds).1 = (Some devs, None))
  ∨ (∃ e, (scanImpl ble seconds).1 = (None, Some e)).
Proof.
  rewrite scanImpl_unfold. cbv zeta.
  destruct (dev_NewDevice ble) as [e0|]; [right; by exists e0|].
  destruct (ble_Scan ble _).2 as [e0|]; [destruct (deadline_or_cancel e0)|];
    cbn [fst]; eauto.
Qed.

(** X2.  [scanImpl] returns either a non-nil slice with a nil error or a nil
    slice with an error, and the error is [e] exactly when [dev.NewDevice]
    failed with [e], or the device was created and [ble.Scan] ended with an
    [e] that is neither the deadline nor a cancellation. *)
Theorem scan_outcome_exclusive ble seconds :
  let r := (scanImpl ble seconds).1 in
  ((∃ devs, r = (Some devs, None)) ∨ (∃ e, r = (None, Some e)))
  ∧ (∀ e, r.2 = Some e ↔
          dev_NewDevice ble = Some e
          ∨ (dev_NewDevice ble = None
             ∧ (ble_Scan ble (scan_timeout (effective_seconds seconds))).2 = Some e
             ∧ deadline_or_cancel e = false)).
Proof.
  cbv zeta. split; [apply scan_outcome_shape|].
  rewrite scanImpl_unfold. cbv zeta.
  destruct (dev_NewDevice ble) as [e0|]; cbn [fst snd].
  { intros e. split.
    - intros [= ->]. by left.
    - intros [[= ->]|[? _]]; done. }
  destruct (ble_Scan ble _).2 as [e0|]; cbn [fst snd].
  - destruct (deadline_or_cancel e0) eqn:E; cbn [fst snd]; intros e; split.
    + done.
    + intros [?|(_ & [= ->] & ?)]; congruence.
    + intros [= ->]. right. done.
    + intros [?|(_ & [= ->] & ?)]; done.
  - intros e. split; [done|]. intros [?|(_ & ? & _)]; done.
Qed.

Lemma foldl_advHandler_named_only advs : ∀ st,
  foldl advHandler st (named_only advs) = foldl advHandler st advs.
Proof.
  unfold named_only.
  induction advs as [|a advs IH]; intros st; [done|].
  rewrite filter_cons. case_decide as Hn; cbn [foldl].
  - apply IH.
  - rewrite advHandler_unnamed by done. apply IH.
Qed.

(** X3.  Taking the advertisements without a display name out of the stream
    changes nothing: the slice, the error and the log of [scanImpl] are the
    same. *)
Theorem scan_ignores_unnamed_advertisements ble seconds :
  scanImpl (without_unnamed ble) seconds = scanImpl ble seconds.
Proof.
  unfold scanImpl, without_unnamed. cbn [dev_NewDevice ble_Scan].
  destruct (seconds <=? 0); (destruct (dev_NewDevice ble); [done|]);
    match goal with
    | |- context [ble_Scan ble ?t] => destruct (ble_Scan ble t) as [advs err]
    end; cbn [fst snd]; by rewrite foldl_advHandler_named_only.
Qed.

Lemma dom_collected advs : dom (collected advs) = named_addresses advs.
Proof.
  apply set_eq. intros k. unfold named_addresses, named_only.
  rewrite elem_of_dom, collected_lookup, fmap_is_Some.
  rewrite elem_of_list_to_set, list_elem_of_fmap.
  unfold last_named_from. rewrite last_is_Some. split.
  - intros Hne. destruct (filter _ advs) as [|a l] eqn:E; [done|].
    assert (a ∈ filter (λ a, adv_Addr a = k ∧ named a) advs) as Ha
      by (rewrite E; left).
    apply list_elem_of_filter in Ha as [[<- Hn] Hin].
    exists a. split; [done|]. by apply list_elem_of_filter.
  - intros (a & -> & [Hn Hin]%list_elem_of_filter) E.
    assert (a ∈ filter (λ a', adv_Addr a' = adv_Addr a ∧ named a') advs) as Ha
      by by apply list_elem_of_filter.
    rewrite E in Ha. by apply elem_of_nil in Ha.
Qed.

Lemma size_list_to_set_le (l : list string) :
  (size (list_to_set l : gset string) ≤ length l)%nat.
Proof.
  induction l as [|x l IH]; cbn [list_to_set length].
  - by rewrite size_empty.
  - rewrite size_union_alt, size_singleton.
    assert (list_to_set l ∖ {[x]} ⊆ (list_to_set l : gset string)) as Hsub
      by (intros y [Hy _]%elem_of_difference; exact Hy).
    apply subseteq_size in Hsub. lia.
Qed.

Lemma length_collect (m : gmap string Device) : length (collect m) = size m.
Proof. unfold collect. by rewrite length_fmap, length_map_to_list. Qed.

(** X4.  The slice [scanImpl] returns has one entry per distinct address
    among the named advertisements delivered, so at most as many entries as
    named advertisements; the last line logged is that count. *)
Theorem scan_counts_distinct_named_addresses ble seconds devs :
  (scanImpl ble seconds).1 = (Some devs, None) →
  let advs := (ble_Scan ble (scan_timeout (effective_seconds seconds))).1 in
  length devs = size (named_addresses advs)
  ∧ (length devs ≤ length (named_only advs))%nat
  ∧ last (scanImpl ble seconds).2 = Some (LogFoundDevices (length devs)).
Proof.
  intros Hres advs.
  assert (devs = collect (collected advs)
          ∧ last (scanImpl ble seconds).2 = Some (LogFoundDevices (length devs)))
    as [-> Hlog].
  { revert Hres. rewrite scanImpl_unfold. cbv zeta. fold advs.
    destruct (dev_NewDevice ble); [done|].
    destruct (ble_Scan ble _).2 as [e|]; [destruct (deadline_or_cancel e)|];
      cbn [fst snd]; intros [= <-]; try done; split; try done; apply last_snoc. }
  assert (length (collect (collected advs)) = size (named_addresses advs)) as Hlen.
  { by rewrite length_collect, <- size_dom, dom_collected. }
  split_and!; [done| |done].
  rewrite Hlen. unfold named_addresses.
  etrans; [apply size_list_to_set_le|]. by rewrite length_fmap.
Qed.

(** The scenario of the specification, for X4. *)
Lemma scan_counts_distinct_named_addresses_witness :
  length [mkDevice "A" "x" (-30)] = size (named_addresses scenario_advs).
Proof.
  exact (proj1 (scan_counts_distinct_named_addresses scenario_ble 2
                  [mkDevice "A" "x" (-30)] eq_refl)).
Defined.

Lemma last_named_from_swap addr l1 a b l2 :
  adv_Addr a ≠ adv_Addr b →
  last_named_from addr (l1 ++ a :: b :: l2) = last_named_from addr (l1 ++ b :: a :: l2).
Proof.
  intros Hne. unfold last_named_from. rewrite !filter_app, !filter_cons.
  repeat case_decide; try done. intuition congruence.
Qed.

(** X5.  The order in which two neighbouring advertisements of different
    addresses reach the handler does not change what [scanImpl] returns. *)
Theorem scan_swap_distinct_addresses ble ble' seconds l1 a b l2 err :
  dev_NewDevice ble = dev_NewDevice ble' →
  adv_Addr a ≠ adv_Addr b →
  ble_Scan ble (scan_timeout (effective_seconds seconds)) = (l1 ++ a :: b :: l2, err) →
  ble_Scan ble' (scan_timeout (effective_seconds seconds)) = (l1 ++ b :: a :: l2, err) →
  (scanImpl ble seconds).1 = (scanImpl ble' seconds).1.
Proof.
  intros Hdev Hne Hs Hs'.
  assert (collected (l1 ++ a :: b :: l2) = collected (l1 ++ b :: a :: l2)) as Hc.
  { apply map_eq. intros k. rewrite !collected_lookup.
    by rewrite last_named_from_swap. }
  destruct (dev_NewDevice ble') as [e|] eqn:Hd.
  - by rewrite (scanImpl_no_device _ _ _ Hdev), (scanImpl_no_device _ _ _ Hd).
  - by rewrite (scanImpl_result _ _ _ _ Hdev Hs), (scanImpl_result _ _ _ _ Hd Hs'), Hc.
Qed.

(** Two peers seen in either order, for X5. *)
Lemma scan_swap_distinct_addresses_witness :
  (scanImpl swap_ble 2).1 = (scanImpl swapped_ble 2).1.
Proof.
  apply (scan_swap_distinct_addresses swap_ble swapped_ble 2
           [mkAdv "A" "x" (-40) 0] (mkAdv "A" "y" (-30) 0) (mkAdv "B" "z" (-50) 0) []
           (Some Canceled)); [reflexivity|discriminate|reflexivity|reflexivity].
Defined.

(** X6.  The timeout of line 39 is the seconds in nanoseconds, and positive,
    for every argument up to 9223372036 (5 s for a non-positive one); from
    9223372037 to 18446744073 the multiplication wraps around in int64 and
    the timeout is negative. *)
Theorem scan_timeout_range seconds :
  (seconds <= 9223372036 →
     scan_timeout (effective_seconds seconds) = effective_seconds seconds * 1000000000
     ∧ 0 < scan_timeout (effective_seconds seconds))
  ∧ (9223372036 < seconds <= 18446744073 →
     scan_timeout (effective_seconds seconds) = seconds * 1000000000 - 2 ^ 64
     ∧ scan_timeout (effective_seconds seconds) < 0).
Proof.
  unfold scan_timeout, int64_wrap, effective_seconds. split.
  - intros H. destruct (Z.leb_spec seconds 0).
    + by vm_compute.
    + rewrite Z.mod_small by lia. lia.
  - intros H. destruct (Z.leb_spec seconds 0); [lia|].
    replace (seconds * 1000000000 + 2 ^ 63)
      with (seconds * 1000000000 - 2 ^ 63 + 1 * 2 ^ 64) by lia.
    rewrite Z.mod_add by lia. rewrite Z.mod_small by lia. lia.
Qed.

(** The first argument that wraps, for X6. *)
Lemma scan_timeout_range_witness :
  scan_timeout (effective_seconds 9223372037) < 0.
Proof.
  exact (proj2 (proj2 (scan_timeout_range 9223372037) ltac:(lia))).
Defined.
End ScanCoordinatorMore.

Section Facade.
Import Bluetooth ScanSpec ApiSpec V1.

(** X7.  When [BluetoothScanApi] returns an error, the string it returns is
    empty, the error is what it printed, and the error is the scan's or,
    after a successful scan, the one of [json.Marshal]. *)
Theorem BluetoothScanApi_error_has_empty_string ble json seconds s e :
  (BluetoothScanApi ble json seconds).1.1 = (s, Some e) →
  s = EmptyString
  ∧ (BluetoothScanApi ble json seconds).1.2 = [PrintError e]
  ∧ ((scanImpl ble seconds).1.2 = Some e
     ∨ ∃ devs, (scanImpl ble seconds).1 = (Some devs, None)
               ∧ (json_Marshal json (Some devs)).2 = Some e).
Proof.
  unfold BluetoothScanApi, Scan.
  pose proof (scan_outcome_shape ble seconds) as [[devs Hr]|[e0 Hr]];
    destruct (scanImpl ble seconds) as [[ds err] log]; cbn [fst snd] in *;
    injection Hr as -> ->.
  - destruct (json_Marshal json (Some devs)) as [b [e1|]] eqn:Hm; cbn [fst snd].
    + intros [= <- <-]. split_and!; [done..|]. right. exists devs. by rewrite Hm.
    + done.
  - intros [= <- <-]. split_and!; [done..|]. by left.
Qed.

(** X8.  An error of the scan is returned by [BluetoothScanApi] unchanged,
    with the empty string, and [json.Marshal] has no part in the result. *)
Theorem BluetoothScanApi_propagates_scan_error ble json seconds e :
  (scanImpl ble seconds).1.2 = Some e →
  (BluetoothScanApi ble json seconds).1.1 = (EmptyString, Some e)
  ∧ (∀ json', BluetoothScanApi ble json' seconds = BluetoothScanApi ble json seconds).
Proof.
  unfold BluetoothScanApi, Scan.
  destruct (scanImpl ble seconds) as [[ds err] log]; cbn [fst snd].
  by intros ->.
Qed.

(** X9.  When the device is created and [ble.Scan] ends with nil, the
    deadline or a cancellation, [BluetoothScanApi] returns what
    [json.Marshal] gives for the non-nil slice of the devices collected:
    its bytes as a string, or the empty string and its error. *)
Theorem BluetoothScanApi_marshals_collected ble json seconds advs err :
  dev_NewDevice ble = None →
  ble_Scan ble (scan_timeout (effective_seconds seconds)) = (advs, err) →
  from_option deadline_or_cancel true err = true →
  (BluetoothScanApi ble json seconds).1.1 =
    match json_Marshal json (Some (collect (collected advs))) with
    | (b, None) => (b, None)
    | (_, Some e) => (EmptyString, Some e)
    end.
Proof.
  intros Hdev Hscan Hok. unfold BluetoothScanApi, Scan.
  pose proof (scanImpl_result _ _ _ _ Hdev Hscan) as Hr.
  destruct (scanImpl ble seconds) as [[ds e0] log]; cbn [fst snd] in *.
  assert (ds = Some (collect (collected advs)) ∧ e0 = None) as [-> ->].
  { destruct err as [e|]; cbn in Hok; [rewrite Hok in Hr|]; by injection Hr. }
  by destruct (json_Marshal json _) as [b [e|]].
Qed.

(** A host without an adapter, for X7. *)
Lemma BluetoothScanApi_error_has_empty_string_witness :
  EmptyString = EmptyString
  ∧ (BluetoothScanApi no_adapter_ble count_json 3).1.2
      = [PrintError (ErrorString "no adapter")]
  ∧ ((scanImpl no_adapter_ble 3).1.2 = Some (ErrorString "no adapter")
     ∨ ∃ devs, (scanImpl no_adapter_ble 3).1 = (Some devs, None)
               ∧ (json_Marshal count_json (Some devs)).2
                 = Some (ErrorString "no adapter")).
Proof.
  exact (BluetoothScanApi_error_has_empty_string no_adapter_ble count_json 3
           EmptyString (ErrorString "no adapter") eq_refl).
Defined.

(** A scan that broke, for X8. *)
Lemma BluetoothScanApi_propagates_scan_error_witness :
  (BluetoothScanApi broken_ble count_json 2).1.1
    = (EmptyString, Some (ErrorString "hci: no device")).
Proof.
  exact (proj1 (BluetoothScanApi_propagates_scan_error broken_ble count_json 2
                  (ErrorString "hci: no device") eq_refl)).
Defined.

(** The scenario of the specification through the facade, for X9. *)
Lemma BluetoothScanApi_marshals_collected_witness :
  (BluetoothScanApi scenario_ble count_json 2).1.1 = ("1"%string, None).
Proof.
  exact (BluetoothScanApi_marshals_collected scenario_ble count_json 2
           scenario_advs (Some DeadlineExceeded) eq_refl eq_refl eq_refl).
Defined.
End Facade.

(** ** More of the server lifecycle and the resolver *)
Section ServerLifecycleMore.
Import WebDAV ServerSpec ApiSpec.

Implicit Types (w : WebDAVService) (net : Network) (http : HTTP)
  (sys : System) (history : list Event).

Lemma reachable_host_nonempty net : reachable_host net ≠ EmptyString.
Proof.
  unfold reachable_host. destruct (String.eqb_spec (localIPv4 net) ""); done.
Qed.

(** X10.  A [Start] that returns an error returns the empty string and
    leaves every field of the service as it was; one that returns nil
    returns a non-empty string, found the service stopped and leaves it
    running.  The error is "webdav already running" on a running service
    and the error of [net.Listen] otherwise. *)
Theorem Start_error_leaves_service w net port :
  let r := Start w net port in
  (r.2.2 ≠ None → r.1 = w ∧ r.2.1 = EmptyString)
  ∧ (r.2.2 = None → r.2.1 ≠ EmptyString ∧ running r.1 = true ∧ running w = false)
  ∧ (∀ e, r.2.2 = Some e ↔
          (running w = true ∧ e = AlreadyRunning)
          ∨ (running w = false
             ∧ net_Listen net "tcp" ("0.0.0.0:" +:+ itoa port) = ListenFailed e)).
Proof.
  cbv zeta. unfold Start.
  destruct (running w) eqn:Hrun; cbn [fst snd].
  { split_and!; [done|done|]. intros e. split.
    - intros [= <-]. by left.
    - intros [[_ ->]|[? _]]; done. }
  destruct (net_Listen net "tcp" _) as [p|err]; cbn [fst snd].
  - split_and!; [done| |].
    + intros _. split; [|done]. intros H.
      destruct (reachable_host net) eqn:E; [by apply reachable_host_nonempty in E|].
      unfold reachable_host in E. rewrite E in H. discriminate H.
    + intros e. split; [done|]. intros [[? _]|[_ ?]]; done.
  - split_and!; [done|done|]. intros e. split.
    + intros [= <-]. by right.
    + intros [[? _]|[_ [= ->]]]; done.
Qed.

(** A port that is taken, for X10. *)
Lemma Start_error_leaves_service_witness :
  (Start fresh taken_net 8080).1 = fresh
  ∧ (Start fresh taken_net 8080).2.1 = EmptyString.
Proof.
  exact (proj1 (Start_error_leaves_service fresh taken_net 8080) ltac:(discriminate)).
Defined.

(** X11.  On a running service with both handles, [Stop] returns exactly
    the error of [Shutdown] called with a 5 s timeout, and whatever that
    error is the listener has been closed, the server asked to shut down
    and the root kept; the service is stopped exactly when the error is
    nil. *)
Theorem Stop_closes_listener w http ln s :
  running w = true →
  listener w = Some ln →
  srv w = Some s →
  let w' := (Stop w http).1 in
  (Stop w http).2 = http_Shutdown http s (5 * Second)
  ∧ listener w' = Some (mkListener (ln_Port ln) true)
  ∧ srv w' = Some (mkServer (srv_Dir s) (ReadTimeout s) (WriteTimeout s)
                     (IdleTimeout s) true)
  ∧ root w' = root w
  ∧ (running w' = false ↔ (Stop w http).2 = None).
Proof.
  intros Hrun Hln Hs. cbv zeta. unfold Stop. rewrite Hrun, Hln, Hs. cbn [negb].
  destruct (http_Shutdown http s (5 * Second)); cbn [fst snd running];
    rewrite ?Hrun; split_and!; try done; split; done.
Qed.

(** A failed and a successful shutdown, for X11. *)
Lemma Stop_closes_listener_witness :
  listener (Stop started shutdown_late).1 = Some (mkListener 49152 true)
  ∧ listener (Stop started shutdown_ok).1 = Some (mkListener 49152 true).
Proof.
  split.
  - exact (proj1 (proj2 (Stop_closes_listener started shutdown_late
                           (mkListener 49152 false) _ eq_refl eq_refl eq_refl))).
  - exact (proj1 (proj2 (Stop_closes_listener started shutdown_ok
                           (mkListener 49152 false) _ eq_refl eq_refl eq_refl))).
Defined.

(** [Stop] twice on a started service, for X12. *)
Lemma Stop_after_successful_Stop_witness :
  running (Stop started shutdown_ok).1 = false
  ∧ Stop (Stop started shutdown_ok).1 shutdown_late
    = ((Stop started shutdown_ok).1, None).
Proof. exact (Stop_after_successful_Stop started shutdown_ok shutdown_late eq_refl). Defined.

Lemma Stop_nil_not_running w http :
  (Stop w http).2 = None → running (Stop w http).1 = false.
Proof.
  unfold Stop. destruct (running w) eqn:E; cbn [negb]; [|done].
  destruct (srv w) as [s|]; [|done].
  by destruct (http_Shutdown http s (5 * Second)).
Qed.

Lemma Stop_root w http : root (Stop w http).1 = root w.
Proof.
  unfold Stop. destruct (running w); [|done]. cbn [negb].
  destruct (srv w) as [s|]; [|done].
  by destruct (http_Shutdown http s (5 * Second)).
Qed.

Lemma Start_root w net port : root (Start w net port).1 = root w.
Proof.
  unfold Start. destruct (running w); [done|].
  by destruct (net_Listen net "tcp" _).
Qed.

(** X13.  After a [Stop] that returned nil the service can be started
    again: when the bind succeeds, [Start] installs a new server on the same
    root and the new open listener, and reports the new port. *)
Theorem Start_after_Stop_restarts w http net port p :
  (Stop w http).2 = None →
  net_Listen net "tcp" ("0.0.0.0:" +:+ itoa port) = Listening p →
  Start (Stop w http).1 net port =
    (mkService
       (Some (mkServer (root w) (5 * Second) (30 * Second) (60 * Second) false))
       (Some (mkListener p false)) (root w) true,
     (reachable_host net +:+ ":" +:+ itoa p, None)).
Proof.
  intros Hstop Hl.
  unfold Start. rewrite (Stop_nil_not_running w http Hstop), Hl, Stop_root. done.
Qed.

(** A restart, for X13. *)
Lemma Start_after_Stop_restarts_witness :
  (Start (Stop started shutdown_ok).1 lo_net 0).2 = ("127.0.0.1:49152"%string, None).
Proof.
  exact (f_equal snd (Start_after_Stop_restarts started shutdown_ok lo_net 0 49152
                        eq_refl eq_refl)).
Defined.

(** X14.  After a [Stop] that returned an error, [Start] is refused with
    "webdav already running" and changes nothing; once the serving
    goroutine has run lines 86-88, [Start] goes on to bind. *)
Theorem Start_refused_after_failed_Stop w http e net port :
  (Stop w http).2 = Some e →
  Start (Stop w http).1 net port
    = ((Stop w http).1, (EmptyString, Some AlreadyRunning))
  ∧ (∀ err, (Start (serveReturned (Stop w http).1 err).1 net port).2.2 =
            match net_Listen net "tcp" ("0.0.0.0:" +:+ itoa port) with
            | Listening _ => None
            | ListenFailed e' => Some e'
            end).
Proof.
  intros Hstop.
  assert (running (Stop w http).1 = true) as Hrun.
  { revert Hstop. unfold Stop. destruct (running w) eqn:E; cbn [negb]; [|done].
    destruct (srv w) as [s|]; [|done].
    by destruct (http_Shutdown http s (5 * Second)). }
  split; [by apply Start_running|].
  intros err. unfold Start, serveReturned. cbn [fst running root].
  by destruct (net_Listen net "tcp" _).
Qed.

(** A [Start] after a shutdown that timed out, for X14. *)
Lemma Start_refused_after_failed_Stop_witness :
  Start (Stop started shutdown_late).1 lan_net 8080
    = ((Stop started shutdown_late).1, (EmptyString, Some AlreadyRunning)).
Proof.
  exact (proj1 (Start_refused_after_failed_Stop started shutdown_late
                  DeadlineExceeded lan_net 8080 eq_refl)).
Defined.

(** One step keeps the root, the configuration of the server held and the
    presence of the handles. *)
Lemma step_frame sys e :
  let P w := ∀ s, srv w = Some s →
                  srv_Dir s = root w ∧ ReadTimeout s = 5 * Second
                  ∧ WriteTimeout s = 30 * Second ∧ IdleTimeout s = 60 * Second in
  root (service (step sys e)) = root (service sys)
  ∧ (P (service sys) → P (service (step sys e)))
  ∧ (handles_present (service sys) → handles_present (service (step sys e))).
Proof.
  cbv zeta. unfold handles_present. destruct sys as [w n].
  destruct e as [net port|http|err]; cbn [step service serving].
  - unfold Start. destruct (running w); [done|].
    destruct (net_Listen net "tcp" _) as [p|err]; [|done]. cbn [service srv root listener].
    split_and!; [done| |].
    + intros _ s [= <-]. done.
    + intros _. split; by eexists.
  - unfold Stop. destruct (running w); [|done]. cbn [negb].
    destruct (srv w) as [s|] eqn:Hs.
    + destruct (http_Shutdown http s (5 * Second)); cbn [fst srv root listener];
        (split_and!; [done| |]).
      all: try (intros HP s' [= <-]; by apply (HP s)).
      all: intros [[ln ->] _]; split; by eexists.
    + cbn [fst srv root listener]. split_and!; [done|done|].
      intros [_ [? ?]]. done.
  - destruct n as [|n]; [done|]. cbn [service serveReturned fst srv root listener]. done.
Qed.

(** X15.  Through any history the root of a service stays the one
    [NewWebDAVService] settled on, and every server the service holds serves
    that root with a read timeout of 5 s, a write timeout of 30 s and an
    idle timeout of 60 s. *)
Theorem service_root_and_configuration fs root0 history :
  let w := service (run (initial fs root0) history) in
  root w = resolved_root fs root0
  ∧ (∀ s, srv w = Some s →
          srv_Dir s = resolved_root fs root0
          ∧ ReadTimeout s = 5 * Second
          ∧ WriteTimeout s = 30 * Second
          ∧ IdleTimeout s = 60 * Second).
Proof.
  cbv zeta.
  assert (∀ sys,
    root (service (run sys history)) = root (service sys)
    ∧ ((∀ s, srv (service sys) = Some s →
             srv_Dir s = root (service sys) ∧ ReadTimeout s = 5 * Second
             ∧ WriteTimeout s = 30 * Second ∧ IdleTimeout s = 60 * Second) →
       ∀ s, srv (service (run sys history)) = Some s →
            srv_Dir s = root (service sys) ∧ ReadTimeout s = 5 * Second
            ∧ WriteTimeout s = 30 * Second ∧ IdleTimeout s = 60 * Second)) as Hrun.
  { unfold run. induction history as [|e history IH]; intros sys; [done|].
    cbn [foldl]. destruct (step_frame sys e) as (Hr & HP & _).
    destruct (IH (step sys e)) as [IHr IHP].
    split; [by rewrite IHr|]. intros H0 s Hs. rewrite <- Hr.
    apply IHP; [|done]. by apply HP. }
  destruct (Hrun (initial fs root0)) as [Hr HP].
  unfold initial in *. cbn [service] in *.
  destruct (NewWebDAVService_value fs root0) as [Hnew _]. rewrite Hnew in *.
  cbn [root srv] in *. split; [done|]. by apply HP.
Qed.

(** The server held after a failed [Stop], for X15. *)
Lemma service_root_and_configuration_witness :
  srv_Dir (mkServer "/srv/share" (5 * Second) (30 * Second) (60 * Second) true)
    = resolved_root readonly_fs "/srv/share"
  ∧ ReadTimeout (mkServer "/srv/share" (5 * Second) (30 * Second) (60 * Second) true)
    = 5 * Second
  ∧ WriteTimeout (mkServer "/srv/share" (5 * Second) (30 * Second) (60 * Second) true)
    = 30 * Second
  ∧ IdleTimeout (mkServer "/srv/share" (5 * Second) (30 * Second) (60 * Second) true)
    = 60 * Second.
Proof.
  exact (proj2 (service_root_and_configuration readonly_fs "/srv/share"
                  [CallStart lan_net 0; CallStop shutdown_late]) _ eq_refl).
Defined.

(** X16.  No call and no goroutine ever sets a handle back to nil: once both
    handles are present they stay present through any history. *)
Theorem handles_never_released sys history :
  handles_present (service sys) → handles_present (service (run sys history)).
Proof.
  revert sys. induction history as [|e history IH]; intros sys H; [done|].
  cbn [run foldl]. apply IH. by apply step_frame.
Qed.

(** A started service through a [Stop] and its goroutine's return, for X16. *)
Lemma handles_never_released_witness :
  handles_present (service (run (mkSystem started 1)
                             [CallStop shutdown_ok; ServeReturned ErrServerClosed])).
Proof.
  apply (handles_never_released (mkSystem started 1)).
  split; by eexists.
Defined.

(** X17.  When the goroutine of a first [Start] takes the lock only after
    the service was stopped and started again, it clears the running flag
    of the new service: [IsRunning] answers false while the service holds
    the new, open listener and a server not asked to shut down, and the
    second goroutine is still serving. *)
Theorem stale_goroutine_clears_new_service w net1 port1 p1 http net2 port2 p2 err :
  running w = false →
  net_Listen net1 "tcp" ("0.0.0.0:" +:+ itoa port1) = Listening p1 →
  (∀ s, http_Shutdown http s (5 * Second) = None) →
  net_Listen net2 "tcp" ("0.0.0.0:" +:+ itoa port2) = Listening p2 →
  let sys := run (mkSystem w 0)
               [CallStart net1 port1; CallStop http; CallStart net2 port2;
                ServeReturned err] in
  IsRunning (service sys) = false
  ∧ listener (service sys) = Some (mkListener p2 false)
  ∧ srv (service sys)
    = Some (mkServer (root w) (5 * Second) (30 * Second) (60 * Second) false)
  ∧ serving sys = 1%nat.
Proof.
  intros Hrun Hl1 Hsh Hl2. cbv zeta. cbn [run foldl].
  assert (step (mkSystem w 0) (CallStart net1 port1) =
          mkSystem (mkService
            (Some (mkServer (root w) (5 * Second) (30 * Second) (60 * Second) false))
            (Some (mkListener p1 false)) (root w) true) 1) as ->.
  { cbn [step service serving]. unfold Start. by rewrite Hrun, Hl1. }
  cbn [step service serving Stop running negb listener srv fst].
  rewrite Hsh. cbn [fst]. unfold Start. cbn [running root]. rewrite Hl2. done.
Qed.

(** A restart overtaking the first goroutine, for X17. *)
Lemma stale_goroutine_clears_new_service_witness :
  IsRunning (service (run (mkSystem fresh 0)
                        [CallStart lan_net 0; CallStop shutdown_ok;
                         CallStart lan_net 8080;
                         ServeReturned (ErrorString "use of closed network connection")]))
    = false.
Proof.
  exact (proj1 (stale_goroutine_clears_new_service fresh lan_net 0 49152 shutdown_ok
                  lan_net 8080 8080 _ eq_refl eq_refl (λ _, eq_refl) eq_refl)).
Defined.
End ServerLifecycleMore.

Section AddressResolverMore.
Import WebDAV ServerSpec.

Implicit Types (a : Addr) (ip : IP).

Lemma byte_is_eq b c : byte_is b (Byte.to_N c) = true ↔ b = c.
Proof.
  unfold byte_is. rewrite N.eqb_eq. split; [|by intros ->].
  intros H. pose proof (Byte.of_to_N b) as Hb. rewrite H, Byte.of_to_N in Hb.
  congruence.
Qed.

Lemma To4_four b1 b2 b3 b4 : To4 [b1; b2; b3; b4] = [b1; b2; b3; b4].
Proof. done. Qed.

Lemma To4_mapped b1 b2 b3 b4 :
  To4 (v4InV6Prefix ++ [b1; b2; b3; b4]) = [b1; b2; b3; b4].
Proof. done. Qed.

Lemma To4_inv ip b1 b2 b3 b4 :
  To4 ip = [b1; b2; b3; b4] →
  ip = [b1; b2; b3; b4] ∨ ip = v4InV6Prefix ++ [b1; b2; b3; b4].
Proof.
  unfold To4. destruct (Nat.eqb (length ip) 4) eqn:E4; [by left|].
  destruct (Nat.eqb (length ip) 16) eqn:E16; [|done].
  apply Nat.eqb_eq in E16.
  do 17 (destruct ip as [|? ip]; try discriminate E16). clear E4 E16.
  cbn [take drop nth isZeros forallb andb].
  repeat match goal with
  | |- context [byte_is ?b ?n] =>
      let E := fresh "E" in destruct (byte_is b n) eqn:E; cbn [andb]; [|done]
  end.
  intros [= -> -> -> ->]. right.
  repeat match goal with
  | H : byte_is _ 0 = true |- _ => apply (byte_is_eq _ Byte.x00) in H; subst
  | H : byte_is _ 255 = true |- _ => apply (byte_is_eq _ Byte.xff) in H; subst
  end.
  done.
Qed.

(** What an address that passes the tests of lines 157-163 looks like. *)
Lemma usable_inv a :
  usable a = true →
  ∃ b1 b2 b3 b4,
    b1 ≠ Byte.x7f
    ∧ (addr_ip a = [b1; b2; b3; b4] ∨ addr_ip a = v4InV6Prefix ++ [b1; b2; b3; b4]).
Proof.
  unfold usable, IsLoopback.
  intros [Hlo Hnil]%andb_true_iff.
  destruct (To4_nil_or_four (addr_ip a)) as [E|E]; [by rewrite E in Hnil|].
  destruct (To4 (addr_ip a)) as [|b1 [|b2 [|b3 [|b4 [|? ?]]]]] eqn:E4;
    try discriminate E.
  exists b1, b2, b3, b4. split; [|by apply To4_inv].
  intros ->. cbn in Hlo. done.
Qed.

(** X18.  The tests of lines 157-163 let an address through exactly when its
    IP is four bytes, or sixteen bytes of the IPv4-mapped form, and the
    first of the four IPv4 bytes is not 127. *)
Theorem usable_iff a :
  usable a = true ↔
  ∃ b1 b2 b3 b4,
    b1 ≠ Byte.x7f
    ∧ (addr_ip a = [b1; b2; b3; b4] ∨ addr_ip a = v4InV6Prefix ++ [b1; b2; b3; b4]).
Proof.
  split; [apply usable_inv|].
  unfold usable, IsLoopback.
  intros (b1 & b2 & b3 & b4 & Hne & [-> | ->]);
    rewrite ?To4_four, ?To4_mapped; cbn [is_nil negb nth andb];
    rewrite andb_true_r; apply negb_true_iff;
    destruct (byte_is b1 127) eqn:E; try done;
    by apply (byte_is_eq _ Byte.x7f) in E.
Qed.

(** X19.  [localIPv4] returns the empty string or a dotted quad whose first
    byte is not 127. *)
Theorem localIPv4_never_loopback net :
  localIPv4 net = EmptyString
  ∨ ∃ b1 b2 b3 b4,
      b1 ≠ Byte.x7f
      ∧ localIPv4 net =
          byte_dec b1 +:+ "." +:+ byte_dec b2 +:+ "." +:+ byte_dec b3 +:+ "."
          +:+ byte_dec b4.
Proof.
  unfold localIPv4. destruct (net_Interfaces net) as [ifaces [err|]]; [by left|].
  rewrite scanInterfaces_find.
  destruct (find usable (candidates ifaces)) as [a|] eqn:E; [|by left].
  apply find_some in E as [_ Hu]. right. cbn.
  pose proof Hu as (b1 & b2 & b3 & b4 & Hne & Hip)%usable_inv.
  exists b1, b2, b3, b4. split; [done|].
  unfold render. by destruct Hip as [-> | ->].
Qed.
End AddressResolverMore.
